(** * The SMTP listener of inbucket: connection acceptance and session lifecycle

    A shallow embedding of [pkg/server/smtp/listener.go]: [NewServer],
    [Start], [serve], [Drain] and [Notify], together with the Go primitives
    they are written with (a buffered channel, a wait group, an atomic
    counter, machine integers), followed by the properties of the listener. *)

From Stdlib Require Import ZArith List String Bool Lia Sorted Permutation.
Import ListNotations.
Local Open Scope string_scope.
Local Open Scope list_scope.
Local Open Scope Z_scope.

(** ** Machine integers

    [int] is taken at 64 bits (amd64, arm64); [time.Duration] and the value of
    an [expvar.Int] are [int64].  Arithmetic wraps around in two's
    complement. *)

Module GoInt.

Definition bits : Z := 64.
Definition min_int : Z := - 2 ^ 63.
Definition max_int : Z := 2 ^ 63 - 1.

Definition wrap (z : Z) : Z := (z + 2 ^ 63) mod 2 ^ 64 - 2 ^ 63.

Definition add (a b : Z) : Z := wrap (a + b).
Definition mul (a b : Z) : Z := wrap (a * b).

End GoInt.

(** ** package time *)

Module time.

Definition Duration : Type := Z.

Definition Nanosecond : Duration := 1.
Definition Microsecond : Duration := 1000 * Nanosecond.
Definition Millisecond : Duration := 1000 * Microsecond.
Definition Second : Duration := 1000 * Millisecond.

End time.

(** ** Errors

    A Go [error] value.  [serve] looks at two things only: whether the
    dynamic type implements [net.Error] (the type assertion
    [err.(net.Error)]) and, when it does, what its [Timeout()] method
    answers. *)

Record GoError : Type := mkError {
  errText : string;
  isNetError : bool;
  Timeout : bool
}.

(** ** Logging (zerolog)

    One entry per [Msg]/[Msgf] call: the level, the [Str] fields of the
    logger and of the event, the [Err] field, the message (the format string
    for [Msgf]) and the arguments of the format. *)

Inductive Level : Type := DebugLevel | InfoLevel | WarnLevel | ErrorLevel.

Inductive LogArg : Type :=
| ArgErr (e : GoError)
| ArgDuration (d : time.Duration).

Record LogEntry : Type := mkLog {
  level : Level;
  strs : list (string * string);
  errField : option GoError;
  msg : string;
  args : list LogArg
}.

(** ** Collaborators and configuration *)

(** The message manager, the addressing policy, the extension host and a
    network connection are opaque to the listener: handles. *)
Definition Manager : Type := nat.
Definition Addressing : Type := nat.
Definition Host : Type := nat.
Definition Conn : Type := nat.

(** Modelled from the spec: the struct [config.SMTP] is declared in
    [pkg/config], which is not part of the sources at hand; these are the
    fields the listener reads (bind address, TLS-enabled flag, force-TLS
    flag, certificate and private-key paths). *)
Record SMTP : Type := mkSMTP {
  Addr : string;
  TLSEnabled : bool;
  TLSPrivKey : string;
  TLSCert : string;
  ForceTLS : bool
}.

Definition set_TLSEnabled (b : bool) (c : SMTP) : SMTP :=
  mkSMTP (Addr c) b (TLSPrivKey c) (TLSCert c) (ForceTLS c).

(** ** crypto/tls *)

Record Certificate : Type := mkCertificate {
  CertChain : list string;
  PrivateKey : option string
}.

(** The zero value [tls.Certificate{}]. *)
Definition zero_Certificate : Certificate := mkCertificate [] None.

(** [tls.Config]; the listener sets [Certificates] and nothing else. *)
Record tls_Config : Type := mk_tls_Config {
  Certificates : list Certificate
}.

(** [make([]tls.Certificate, n)] *)
Definition make_Certificates (n : nat) : list Certificate :=
  repeat zero_Certificate n.

(** [xs[i] = c] on a slice; out of range panics in Go, which [NewServer]
    cannot reach (index 0 of a slice of length 1). *)
Fixpoint slice_set (xs : list Certificate) (i : nat) (c : Certificate)
  : list Certificate :=
  match xs, i with
  | [], _ => []
  | _ :: xs', O => c :: xs'
  | x :: xs', S i' => x :: slice_set xs' i' c
  end.

(** ** package net *)

Record TCPAddr : Type := mkTCPAddr { addrString : string }.

Inductive Listener : Type :=
| TLSListener (laddr : string) (cfg : tls_Config)
| TCPListener (laddr : TCPAddr).

(** What one call of [s.listener.Accept()] gave, and whether [ctx.Done()]
    was already closed when it returned. *)
Record AcceptEvent : Type := mkAccept {
  accepted : Conn + GoError;
  ctxDone : bool
}.

(** ** The environment

    Everything the listener asks of the operating system and of its caller:
    the outcome of loading the key pair, of resolving the address, of binding
    the socket, of each [Accept], of closing the socket, and whether the
    context is ever cancelled. *)
Record Env : Type := mkEnv {
  LoadX509KeyPair : string -> string -> Certificate * option GoError;
  ResolveTCPAddr : string -> string -> TCPAddr + GoError;
  tls_Listen : string -> string -> tls_Config -> option GoError;
  net_ListenTCP : string -> TCPAddr -> option GoError;
  accepts : list AcceptEvent;
  cancelled : bool;
  listener_Close : option GoError
}.

(** ** Channels and wait groups *)

(** [chan error] with a buffer; no receiver is modelled, so [buf] holds
    every value sent so far. *)
Record Chan : Type := mkChan {
  buf : list GoError;
  cap : nat;
  closed : bool
}.

(** [make(chan error, n)] *)
Definition make_chan (n : nat) : Chan := mkChan [] n false.

(** [sync.WaitGroup]: its counter. *)
Record WaitGroup : Type := mkWaitGroup { counter : Z }.

(** ** The server *)

Record Server : Type := mkServer {
  config : SMTP;
  tlsConfig : tls_Config;
  addrPolicy : Addressing;
  manager : Manager;
  extHost : Host;
  listener : option Listener;
  wg : WaitGroup;
  notify : Chan
}.

Definition set_listener (l : option Listener) (s : Server) : Server :=
  mkServer (config s) (tlsConfig s) (addrPolicy s) (manager s) (extHost s)
           l (wg s) (notify s).

Definition set_wg (g : WaitGroup) (s : Server) : Server :=
  mkServer (config s) (tlsConfig s) (addrPolicy s) (manager s) (extHost s)
           (listener s) g (notify s).

Definition set_notify (c : Chan) (s : Server) : Server :=
  mkServer (config s) (tlsConfig s) (addrPolicy s) (manager s) (extHost s)
           (listener s) (wg s) c.

Definition tls_logger (lv : Level) (e : option GoError) (m : string)
                      (a : list LogArg) : LogEntry :=
  mkLog lv [("module", "smtp"); ("phase", "tls")] e m a.

(** [NewServer]: the server and what it logged. *)
Definition NewServer (env : Env) (smtpConfig : SMTP) (manager : Manager)
    (apolicy : Addressing) (extHost : Host) : Server * list LogEntry :=
  let tlsConfig := mk_tls_Config [] in
  let '(tlsConfig, smtpConfig, logged) :=
    if TLSEnabled smtpConfig then
      let certs := make_Certificates 1 in
      let '(cert, err) :=
        LoadX509KeyPair env (TLSCert smtpConfig) (TLSPrivKey smtpConfig) in
      let tlsConfig := mk_tls_Config (slice_set certs 0 cert) in
      match err with
      | Some err =>
          (tlsConfig, set_TLSEnabled false smtpConfig,
           [tls_logger ErrorLevel None "Failed loading X509 KeyPair: %v"
                       [ArgErr err];
            tls_logger ErrorLevel None "Disabling STARTTLS support" []])
      | None =>
          (tlsConfig, smtpConfig,
           [tls_logger DebugLevel None "STARTTLS feature available" []])
      end
    else (tlsConfig, smtpConfig, [])
  in
  (mkServer smtpConfig tlsConfig apolicy manager extHost None
            (mkWaitGroup 0) (make_chan 1),
   logged).

(** ** The world and the monad of effects

    What the listener shares with the rest of the process: the server, the
    global counter [expConnectsTotal], the goroutines launched with [go], and
    the trace of what was logged, slept, sent and called. *)

Inductive Goroutine : Type :=
| GServe
| GSession (sessionID : Z) (conn : Conn).

Inductive Event : Type :=
| ELog (e : LogEntry)
| ESleep (d : time.Duration)
| ESend (e : GoError)
| EClose
| EReady
| EListenerClose.

Record World : Type := mkWorld {
  srv : Server;
  expConnectsTotal : Z;
  goroutines : list Goroutine;
  trace : list Event
}.

Definition with_srv (f : Server -> Server) (w : World) : World :=
  mkWorld (f (srv w)) (expConnectsTotal w) (goroutines w) (trace w).

Definition with_trace (ev : Event) (w : World) : World :=
  mkWorld (srv w) (expConnectsTotal w) (goroutines w) (trace w ++ [ev]).

(** Where a goroutine can stay parked. *)
Inductive Blocker : Type := OnSend | OnAccept | OnCtxDone | OnWait.

Inductive Halt : Type :=
| Panic (reason : string)
| Parked (on : Blocker).

(** A computation returns, or halts: it panics, or it is parked on a
    blocking operation for as long as the environment was observed. *)
Inductive Outcome (A : Type) : Type :=
| Done (a : A) (w : World)
| Halted (h : Halt) (w : World).

Arguments Done {A} a w.
Arguments Halted {A} h w.

Definition M (A : Type) : Type := World -> Outcome A.

Definition ret {A : Type} (a : A) : M A := fun w => Done a w.

Definition bind {A B : Type} (m : M A) (k : A -> M B) : M B :=
  fun w =>
    match m w with
    | Done a w' => k a w'
    | Halted h w' => Halted h w'
    end.

Declare Scope go_scope.
Delimit Scope go_scope with go.
Notation "x <- m ;; k" := (bind m (fun x => k))
  (at level 61, m at next level, right associativity) : go_scope.
Notation "m ;; k" := (bind m (fun _ => k))
  (at level 61, right associativity) : go_scope.
Local Open Scope go_scope.

Definition world_of {A : Type} (o : Outcome A) : World :=
  match o with
  | Done _ w => w
  | Halted _ w => w
  end.

Definition returns {A : Type} (o : Outcome A) : bool :=
  match o with
  | Done _ _ => true
  | Halted _ _ => false
  end.

Definition get_srv : M Server := fun w => Done (srv w) w.

Definition emit (ev : Event) : M unit := fun w => Done tt (with_trace ev w).

Definition halt {A : Type} (h : Halt) : M A := fun w => Halted h w.

(** [ch <- v] on [s.notify] *)
Definition chan_send (v : GoError) : M unit :=
  fun w =>
    let c := notify (srv w) in
    if closed c then Halted (Panic "send on closed channel") w
    else if (List.length (buf c) <? cap c)%nat then
      Done tt (with_trace (ESend v)
                 (with_srv (set_notify (mkChan (buf c ++ [v]) (cap c) false)) w))
    else Halted (Parked OnSend) w.

(** [close(ch)] on [s.notify] *)
Definition chan_close : M unit :=
  fun w =>
    let c := notify (srv w) in
    if closed c then Halted (Panic "close of closed channel") w
    else Done tt (with_trace EClose
                    (with_srv (set_notify (mkChan (buf c) (cap c) true)) w)).

(** [s.wg.Add(delta)] *)
Definition wg_Add (delta : Z) : M unit :=
  fun w =>
    let n := counter (wg (srv w)) + delta in
    if n <? 0 then Halted (Panic "sync: negative WaitGroup counter") w
    else Done tt (with_srv (set_wg (mkWaitGroup n)) w).

(** [s.wg.Wait()] *)
Definition wg_Wait : M unit :=
  fun w =>
    if counter (wg (srv w)) =? 0 then Done tt w
    else Halted (Parked OnWait) w.

(** [expConnectsTotal.Add(delta)] *)
Definition expConnectsTotal_Add (delta : Z) : M unit :=
  fun w =>
    Done tt (mkWorld (srv w) (GoInt.add (expConnectsTotal w) delta)
                     (goroutines w) (trace w)).

(** The [go] statement. *)
Definition go (g : Goroutine) : M unit :=
  fun w =>
    Done tt (mkWorld (srv w) (expConnectsTotal w) (goroutines w ++ [g])
                     (trace w)).

Definition time_Sleep (d : time.Duration) : M unit := emit (ESleep d).

Definition log_Msg (e : LogEntry) : M unit := emit (ELog e).

(** [<-ctx.Done()] in [Start] *)
Definition await_ctx (env : Env) : M unit :=
  if cancelled env then ret tt else halt (Parked OnCtxDone).

(** ** Start *)

Definition startup_logger (lv : Level) (f : list (string * string))
    (e : option GoError) (m : string) : LogEntry :=
  mkLog lv ([("module", "smtp"); ("phase", "startup")] ++ f) e m [].

Definition shutdown_logger (lv : Level) (e : option GoError) (m : string)
  : LogEntry :=
  mkLog lv [("module", "smtp"); ("phase", "shutdown")] e m [].

(** [Start], on the goroutine of its caller.  When the bind fails,
    [s.listener] has been assigned the nil listener the call returned
    ([None]) before [Start] gives up. *)
Definition Start (env : Env) : M unit :=
  s <- get_srv ;;
  match ResolveTCPAddr env "tcp4" (Addr (config s)) with
  | inr err =>
      log_Msg (startup_logger ErrorLevel [] (Some err)
                 "Failed to build tcp4 address") ;;
      chan_send err ;;
      chan_close ;;
      ret tt
  | inl addr =>
      log_Msg (startup_logger InfoLevel [("addr", addrString addr)] None
                 "SMTP listening on tcp4") ;;
      let '(l, err) :=
        if ForceTLS (config s) then
          match tls_Listen env "tcp4" (addrString addr) (tlsConfig s) with
          | None => (Some (TLSListener (addrString addr) (tlsConfig s)), None)
          | Some e => (None, Some e)
          end
        else
          match net_ListenTCP env "tcp4" addr with
          | None => (Some (TCPListener addr), None)
          | Some e => (None, Some e)
          end in
      (fun w => Done tt (with_srv (set_listener l) w)) ;;
      match err with
      | Some err =>
          log_Msg (startup_logger ErrorLevel [] (Some err)
                     "Failed to start tcp4 listener") ;;
          chan_send err ;;
          chan_close ;;
          ret tt
      | None =>
          go GServe ;;
          emit EReady ;;
          await_ctx env ;;
          log_Msg (shutdown_logger DebugLevel None
                     "SMTP shutdown requested, connections will be drained") ;;
          emit EListenerClose ;;
          match listener_Close env with
          | Some err =>
              log_Msg (shutdown_logger ErrorLevel (Some err)
                         "Failed to close SMTP listener")
          | None => ret tt
          end
      end
  end.

(** ** serve *)

(** [err.(net.Error)] succeeds and [nerr.Timeout()] *)
Definition is_timeout (err : GoError) : bool :=
  isNetError err && Timeout err.

(** The delay chosen on a timeout, from the one carried so far. *)
Definition next_delay (tempDelay : time.Duration) : time.Duration :=
  let tempDelay :=
    if tempDelay =? 0 then 5 * time.Millisecond
    else GoInt.mul tempDelay 2 in
  let max := 1 * time.Second in
  if tempDelay >? max then max else tempDelay.

Definition timeout_entry (err : GoError) (tempDelay : time.Duration)
  : LogEntry :=
  mkLog ErrorLevel [("module", "smtp")] (Some err)
        "SMTP accept timeout; retrying in %v" [ArgDuration tempDelay].

(** How the body of the loop ends: it goes round again ([continue], or the
    end of the body) with the delay to carry, or [serve] returns. *)
Inductive Ctl : Type :=
| Continue (tempDelay : time.Duration)
| Return.

(** One pass through the body of the loop, for one result of [Accept]. *)
Definition serve_body (ev : AcceptEvent) (tempDelay : time.Duration)
    (sessionID : Z) : M Ctl :=
  match accepted ev with
  | inr err =>
      if is_timeout err then
        let tempDelay := next_delay tempDelay in
        log_Msg (timeout_entry err tempDelay) ;;
        time_Sleep tempDelay ;;
        ret (Continue tempDelay)
      else if ctxDone ev then ret Return
      else
        chan_send err ;;
        chan_close ;;
        ret Return
  | inl conn =>
      let tempDelay := 0 in
      expConnectsTotal_Add 1 ;;
      wg_Add 1 ;;
      go (GSession sessionID conn) ;;
      ret (Continue tempDelay)
  end.

(** The variables of the loop. *)
Record LoopState : Type := mkLoop {
  tempDelay : time.Duration;
  sessionID : Z
}.

(** One iteration of [for sessionID := 1; ; sessionID++ { ... }]: the body,
    then the post statement whenever the loop goes round again ([continue]
    included).  [None]: [serve] has returned. *)
Definition serve_iter (ev : AcceptEvent) (st : LoopState)
  : M (option LoopState) :=
  c <- serve_body ev (tempDelay st) (sessionID st) ;;
  match c with
  | Continue tempDelay' =>
      ret (Some (mkLoop tempDelay' (GoInt.add (sessionID st) 1)))
  | Return => ret None
  end.

(** The loop, over the results of [Accept] observed.  With none left, the
    loop is parked in [Accept]. *)
Fixpoint serve_loop (evs : list AcceptEvent) (st : LoopState) : M unit :=
  match evs with
  | [] => halt (Parked OnAccept)
  | ev :: evs' =>
      r <- serve_iter ev st ;;
      match r with
      | Some st' => serve_loop evs' st'
      | None => ret tt
      end
  end.

Definition serve (evs : list AcceptEvent) : M unit :=
  serve_loop evs (mkLoop 0 1).

(** ** Drain and Notify *)

Definition Drain : M unit := wg_Wait.

Definition Notify : M Chan := s <- get_srv ;; ret (notify s).

(** Modelled from the spec: the session handler [startSession] is defined
    outside the sources at hand; by its contract it decrements the session
    tracker exactly once when it exits ([s.wg.Done()]). *)
Definition session_exit (sessionID : Z) : M unit := wg_Add (-1).

(** ** A whole run *)

(** The world in which a freshly constructed server starts. *)
Definition boot (env : Env) (smtpConfig : SMTP) (manager : Manager)
    (apolicy : Addressing) (extHost : Host) : World :=
  let '(s, logged) := NewServer env smtpConfig manager apolicy extHost in
  mkWorld s 0 [] (map ELog logged).

Definition is_serve (g : Goroutine) : bool :=
  match g with
  | GServe => true
  | GSession _ _ => false
  end.

(** [Start] on its goroutine and, when it launched it, [serve] on its own.
    The two touch different parts of the world (but for the trace, where
    [serve]'s events are put after [Start]'s). *)
Definition lifetime (env : Env) (w : World) : World :=
  let w1 := world_of (Start env w) in
  if existsb is_serve (goroutines w1)
  then world_of (serve (accepts env) w1)
  else w1.

(** ** Vocabulary of the properties *)

(** crypto/tls: when it fails, [LoadX509KeyPair] returns [Certificate{}]
    with the error. *)
Definition load_failure_is_zero (env : Env) : Prop :=
  forall certFile keyFile cert e,
    LoadX509KeyPair env certFile keyFile = (cert, Some e) ->
    cert = zero_Certificate.

(** The error, if any, that makes [Start] give up: from the resolution of
    the address, or from binding the socket the configuration asks for. *)
Definition startup_failure (env : Env) (s : Server) : option GoError :=
  match ResolveTCPAddr env "tcp4" (Addr (config s)) with
  | inr e => Some e
  | inl addr =>
      if ForceTLS (config s)
      then tls_Listen env "tcp4" (addrString addr) (tlsConfig s)
      else net_ListenTCP env "tcp4" addr
  end.

Definition is_permanent (ev : AcceptEvent) : bool :=
  match accepted ev with
  | inr e => negb (is_timeout e)
  | inl _ => false
  end.

Definition is_transient (ev : AcceptEvent) : bool :=
  match accepted ev with
  | inr e => is_timeout e
  | inl _ => false
  end.

Definition is_success (ev : AcceptEvent) : bool :=
  match accepted ev with
  | inr _ => false
  | inl _ => true
  end.

(** How a run of the server ends. *)
Inductive Ending : Type :=
| StartupFailure (e : GoError)
| AcceptFailure (e : GoError)
| CleanShutdown
| StillAccepting.

Definition ending (env : Env) (s : Server) : Ending :=
  match startup_failure env s with
  | Some e => StartupFailure e
  | None =>
      match find is_permanent (accepts env) with
      | Some ev =>
          match accepted ev with
          | inr e => if ctxDone ev then CleanShutdown else AcceptFailure e
          | inl _ => StillAccepting
          end
      | None => StillAccepting
      end
  end.

(** The identifiers of the sessions launched, in the order of the [go]
    statements. *)
Definition session_ids (gs : list Goroutine) : list Z :=
  flat_map (fun g => match g with
                     | GSession id _ => [id]
                     | GServe => []
                     end) gs.

(** The iterations, numbered from [k], in which [Accept] gave a connection,
    up to the first permanent failure. *)
Fixpoint accept_iterations (evs : list AcceptEvent) (k : Z) : list Z :=
  match evs with
  | [] => []
  | ev :: evs' =>
      match accepted ev with
      | inl _ => k :: accept_iterations evs' (k + 1)
      | inr e =>
          if is_timeout e then accept_iterations evs' (k + 1) else []
      end
  end.

(** [k; k+1; ...], [n] of them. *)
Fixpoint count_from (k : Z) (n : nat) : list Z :=
  match n with
  | O => []
  | S n' => k :: count_from (k + 1) n'
  end.

Definition sleeps (tr : list Event) : list time.Duration :=
  flat_map (fun ev => match ev with
                      | ESleep d => [d]
                      | _ => []
                      end) tr.

Definition sends (tr : list Event) : list GoError :=
  flat_map (fun ev => match ev with
                      | ESend e => [e]
                      | _ => []
                      end) tr.

Definition logged (tr : list Event) : list LogEntry :=
  flat_map (fun ev => match ev with
                      | ELog e => [e]
                      | _ => []
                      end) tr.

(** 5ms, 10ms, 20ms, ... and never more than 1s. *)
Definition backoff (i : nat) : time.Duration :=
  Z.min (5 * time.Millisecond * 2 ^ Z.of_nat i) (1 * time.Second).

(** The iterations for [evs], one after the other: the variables of the
    loop after them when it still goes round, [None] when [serve] returned
    on the way. *)
Fixpoint iterate (evs : list AcceptEvent) (st : LoopState)
  : M (option LoopState) :=
  match evs with
  | [] => ret (Some st)
  | ev :: evs' =>
      r <- serve_iter ev st ;;
      match r with
      | Some st' => iterate evs' st'
      | None => ret None
      end
  end.

(** How many times the ready callback was called. *)
Definition ready_calls (tr : list Event) : nat :=
  List.length (filter (fun ev => match ev with
                                 | EReady => true
                                 | _ => false
                                 end) tr).

(** The listener [Start] binds at [addr] for the server [s]. *)
Definition bound_listener (s : Server) (addr : TCPAddr) : Listener :=
  if ForceTLS (config s)
  then TLSListener (addrString addr) (tlsConfig s)
  else TCPListener addr.

Definition value_of {A : Type} (o : Outcome A) : option A :=
  match o with
  | Done a _ => Some a
  | Halted _ _ => None
  end.

(** The delays chosen over [n] timeouts in a row, from the delay [d]
    carried in. *)
Fixpoint delays_from (d : time.Duration) (n : nat) : list time.Duration :=
  match n with
  | O => []
  | S n' => next_delay d :: delays_from (next_delay d) n'
  end.

(** What an iteration that ends [serve] leaves alone: everything but the
    notifier and the trace, and in the trace nothing is slept. *)
Definition nothing_dispatched (w w' : World) : Prop :=
  goroutines w' = goroutines w
  /\ wg (srv w') = wg (srv w)
  /\ expConnectsTotal w' = expConnectsTotal w
  /\ sleeps (trace w') = sleeps (trace w).

(** The notifier a run of [serve] over [evs] leaves, from a fresh one, and
    the errors it sent: those of the first permanent failure, when the
    context was not cancelled by then. *)
Definition notifier_after (evs : list AcceptEvent) : Chan * list GoError :=
  match find is_permanent evs with
  | Some ev =>
      match accepted ev with
      | inr e =>
          if ctxDone ev then (make_chan 1, [])
          else (mkChan [e] 1 true, [e])
      | inl _ => (make_chan 1, [])
      end
  | None => (make_chan 1, [])
  end.

(** The configuration and the TLS context of [w'] are those of [w]. *)
Definition same_setup (w w' : World) : Prop :=
  config (srv w') = config (srv w) /\ tlsConfig (srv w') = tlsConfig (srv w).

(** A computation that leaves them alone, however it ends. *)
Definition keeps_setup {A : Type} (m : M A) : Prop :=
  forall w, same_setup w (world_of (m w)).

(** Sessions exiting, in the order given. *)
Fixpoint exits (ids : list Z) : M unit :=
  match ids with
  | [] => ret tt
  | id :: ids' => session_exit id ;; exits ids'
  end.

(** The operations of the core on a constructed server. *)
Inductive Op : Type :=
| OpStart (env : Env)
| OpServe (evs : list AcceptEvent)
| OpDrain
| OpNotify
| OpSessionExit (sessionID : Z).

Definition run_op (op : Op) (w : World) : World :=
  match op with
  | OpStart env => world_of (Start env w)
  | OpServe evs => world_of (serve evs w)
  | OpDrain => world_of (Drain w)
  | OpNotify => world_of (Notify w)
  | OpSessionExit id => world_of (session_exit id w)
  end.

Definition run_ops (ops : list Op) (w : World) : World :=
  fold_left (fun w op => run_op op w) ops w.

(** ** Sample inputs *)

Definition errTimeout : GoError := mkError "accept tcp4: i/o timeout" true true.
Definition errClosed : GoError :=
  mkError "accept tcp4: use of closed network connection" true false.
Definition errReset : GoError :=
  mkError "accept tcp4: too many open files" true false.
Definition errNoFile : GoError :=
  mkError "open cert.pem: no such file or directory" false false.
Definition errNoHost : GoError :=
  mkError "lookup nowhere.invalid: no such host" true false.
Definition errInUse : GoError :=
  mkError "listen tcp4 0.0.0.0:2500: bind: address already in use" true false.

Definition accept_ok (c : Conn) : AcceptEvent := mkAccept (inl c) false.
Definition accept_timeout : AcceptEvent := mkAccept (inr errTimeout) false.
Definition accept_closed : AcceptEvent := mkAccept (inr errClosed) true.
Definition accept_broken : AcceptEvent := mkAccept (inr errReset) false.

(** An environment in which the key pair cannot be loaded, every address
    resolves and every bind succeeds. *)
Definition env_nocert (evs : list AcceptEvent) (cancel : bool) : Env :=
  mkEnv (fun _ _ => (zero_Certificate, Some errNoFile))
        (fun _ a => inl (mkTCPAddr a))
        (fun _ _ _ => None)
        (fun _ _ => None)
        evs cancel None.

(** The same, with an address that does not resolve. *)
Definition env_nohost : Env :=
  mkEnv (fun _ _ => (zero_Certificate, Some errNoFile))
        (fun _ _ => inr errNoHost)
        (fun _ _ _ => None)
        (fun _ _ => None)
        [] false None.

(** The same, with a port already taken. *)
Definition env_inuse : Env :=
  mkEnv (fun _ _ => (zero_Certificate, Some errNoFile))
        (fun _ a => inl (mkTCPAddr a))
        (fun _ _ _ => Some errInUse)
        (fun _ _ => Some errInUse)
        [] false None.

Definition cfg_starttls : SMTP :=
  mkSMTP "0.0.0.0:2500" true "key.pem" "cert.pem" false.
Definition cfg_forcetls : SMTP :=
  mkSMTP "0.0.0.0:2500" true "key.pem" "cert.pem" true.
Definition cfg_plain : SMTP :=
  mkSMTP "0.0.0.0:2500" false "key.pem" "cert.pem" false.

Definition world0 : World := boot (env_nocert [] false) cfg_plain 0%nat 0%nat 0%nat.

(** ** More vocabulary *)

(** How many times the listener was closed. *)
Definition listener_closes (tr : list Event) : nat :=
  List.length (filter (fun ev => match ev with
                                 | EListenerClose => true
                                 | _ => false
                                 end) tr).

(** The connections handed to session handlers, in the order of the [go]
    statements. *)
Definition session_conns (gs : list Goroutine) : list Conn :=
  flat_map (fun g => match g with
                     | GSession _ c => [c]
                     | GServe => []
                     end) gs.

(** The connections [Accept] gave, up to the first permanent failure. *)
Fixpoint accepted_conns (evs : list AcceptEvent) : list Conn :=
  match evs with
  | [] => []
  | ev :: evs' =>
      match accepted ev with
      | inl c => c :: accepted_conns evs'
      | inr e => if is_timeout e then accepted_conns evs' else []
      end
  end.

(** The delays announced in the log. *)
Definition logged_delays (tr : list Event) : list time.Duration :=
  flat_map (fun d => match d with
                     | ArgDuration d => [d]
                     | ArgErr _ => []
                     end)
           (flat_map args (logged tr)).

(** Between 5ms and 1s. *)
Definition in_backoff_range (d : time.Duration) : Prop :=
  5 * time.Millisecond <= d <= 1 * time.Second.

(** The world [Start] has made once it has bound the listener at [addr],
    launched [serve] and called the ready callback. *)
Definition started (w : World) (addr : TCPAddr) : World :=
  mkWorld (set_listener (Some (bound_listener (srv w) addr)) (srv w))
          (expConnectsTotal w) (goroutines w ++ [GServe])
          (trace w ++
           [ELog (startup_logger InfoLevel [("addr", addrString addr)] None
                    "SMTP listening on tcp4");
            EReady]).

(** * The options of the REST client (package client) *)

Module client.

(** [http.RoundTripper], an interface value: [None] is nil. *)
Definition RoundTripper : Type := option nat.

Record options : Type := mkOptions {
  transport : RoundTripper;
  timeout : time.Duration
}.

Definition getDefaultOptions : options :=
  mkOptions None (30 * time.Second).

(** The implementations of the interface [Option]: [transportOption]. *)
Inductive Option : Type :=
| transportOption (t : RoundTripper).

(** [apply(opts *options)]: the options after the call. *)
Definition apply (o : Option) (opts : options) : options :=
  match o with
  | transportOption t => mkOptions t (timeout opts)
  end.

Definition WithOptTransport (t : RoundTripper) : Option := transportOption t.

(** Options applied one after the other, first to last. *)
Definition apply_all (os : list Option) (opts : options) : options :=
  fold_left (fun acc o => apply o acc) os opts.

End client.

(** * Properties *)

(** ** Running the sample inputs *)

Example serve_ids_sample :
  session_ids (goroutines (world_of
    (serve [accept_ok 7%nat; accept_timeout; accept_ok 8%nat] world0)))
  = [1; 3].
Proof. reflexivity. Qed.

Example serve_sleeps_sample :
  sleeps (trace (world_of
    (serve [accept_timeout; accept_timeout; accept_ok 8%nat; accept_timeout]
           world0)))
  = [5000000; 10000000; 5000000].
Proof. reflexivity. Qed.

Example lifetime_nohost_sample :
  notify (srv (lifetime env_nohost world0)) = mkChan [errNoHost] 1 true.
Proof. reflexivity. Qed.

(** ** Construction *)

Ltac unfold_m :=
  unfold log_Msg, time_Sleep, await_ctx in *;
  unfold bind, ret, halt, get_srv, emit, go, expConnectsTotal_Add,
    chan_send, chan_close, wg_Add, wg_Wait in *;
  unfold with_trace, with_srv in *.

Lemma NewServer_disabled env cfg m p h :
  TLSEnabled cfg = false ->
  NewServer env cfg m p h =
  (mkServer cfg (mk_tls_Config []) p m h None (mkWaitGroup 0) (make_chan 1),
   []).
Proof.
  intros Hoff. unfold NewServer. rewrite Hoff. reflexivity.
Qed.

Lemma NewServer_load_failed env cfg m p h cert e :
  TLSEnabled cfg = true ->
  LoadX509KeyPair env (TLSCert cfg) (TLSPrivKey cfg) = (cert, Some e) ->
  NewServer env cfg m p h =
  (mkServer (set_TLSEnabled false cfg) (mk_tls_Config [cert]) p m h None
            (mkWaitGroup 0) (make_chan 1),
   [tls_logger ErrorLevel None "Failed loading X509 KeyPair: %v" [ArgErr e];
    tls_logger ErrorLevel None "Disabling STARTTLS support" []]).
Proof.
  intros Hon Hload. unfold NewServer. rewrite Hon, Hload. reflexivity.
Qed.

Lemma NewServer_fresh env cfg m p h :
  let s := fst (NewServer env cfg m p h) in
  notify s = make_chan 1 /\ wg s = mkWaitGroup 0 /\ listener s = None.
Proof.
  unfold NewServer.
  destruct (TLSEnabled cfg); [| simpl; auto].
  destruct (LoadX509KeyPair env (TLSCert cfg) (TLSPrivKey cfg)) as [cert [e|]];
    simpl; auto.
Qed.

Lemma boot_srv env cfg m p h :
  srv (boot env cfg m p h) = fst (NewServer env cfg m p h).
Proof.
  unfold boot. destruct (NewServer env cfg m p h) as [s l]. reflexivity.
Qed.

Lemma boot_goroutines env cfg m p h : goroutines (boot env cfg m p h) = [].
Proof.
  unfold boot. destruct (NewServer env cfg m p h) as [s l]. reflexivity.
Qed.

Lemma boot_trace env cfg m p h :
  trace (boot env cfg m p h) = map ELog (snd (NewServer env cfg m p h)).
Proof.
  unfold boot. destruct (NewServer env cfg m p h) as [s l]. reflexivity.
Qed.

(** C10: with TLS enabled and a key pair that fails to load, the TLS context
    of the constructed server has a certificate list of exactly one entry,
    the zero-value certificate (the slot made before the load stays); with
    TLS disabled the list is empty, whatever the configured paths. *)
Theorem NewServer_certificate_slot :
  forall env cfg m p h,
    load_failure_is_zero env ->
    (TLSEnabled cfg = true ->
     (exists e,
        snd (LoadX509KeyPair env (TLSCert cfg) (TLSPrivKey cfg)) = Some e) ->
     Certificates (tlsConfig (fst (NewServer env cfg m p h)))
     = [zero_Certificate])
    /\ (TLSEnabled cfg = false ->
        Certificates (tlsConfig (fst (NewServer env cfg m p h))) = []).
Proof.
  intros env cfg m p h Hzero. split.
  - intros Hon [e He].
    destruct (LoadX509KeyPair env (TLSCert cfg) (TLSPrivKey cfg))
      as [cert err] eqn:Hload.
    simpl in He. subst err.
    rewrite (NewServer_load_failed env cfg m p h cert e Hon Hload). simpl.
    rewrite (Hzero _ _ _ _ Hload). reflexivity.
  - intros Hoff. rewrite (NewServer_disabled env cfg m p h Hoff). reflexivity.
Qed.

Lemma env_nocert_load_failure evs cancel :
  load_failure_is_zero (env_nocert evs cancel).
Proof.
  intros certFile keyFile cert e Hload. simpl in Hload.
  injection Hload as Hcert _. symmetry. exact Hcert.
Qed.

Lemma NewServer_certificate_slot_witness :
  load_failure_is_zero (env_nocert [] false)
  /\ Certificates (tlsConfig (fst
       (NewServer (env_nocert [] false) cfg_starttls 1%nat 2%nat 3%nat)))
     = [zero_Certificate]
  /\ Certificates (tlsConfig (fst
       (NewServer (env_nocert [] false) cfg_plain 1%nat 2%nat 3%nat)))
     = [].
Proof.
  pose proof (NewServer_certificate_slot (env_nocert [] false) cfg_starttls
                1%nat 2%nat 3%nat (env_nocert_load_failure [] false)) as Hon.
  pose proof (NewServer_certificate_slot (env_nocert [] false) cfg_plain
                1%nat 2%nat 3%nat (env_nocert_load_failure [] false)) as Hoff.
  split; [exact (env_nocert_load_failure [] false) |].
  split.
  - apply (proj1 Hon); [reflexivity | exists errNoFile; reflexivity].
  - apply (proj2 Hoff). reflexivity.
Defined.

(** ** Startup *)

(** The fatal path shared by [Start] and [serve]: one value sent on a fresh
    notifier, which is then closed. *)
Lemma send_then_close e (w : World) :
  notify (srv w) = make_chan 1 ->
  (chan_send e ;; chan_close ;; ret tt) w =
  Done tt (mkWorld (set_notify (mkChan [e] 1 true) (srv w))
                   (expConnectsTotal w) (goroutines w)
                   ((trace w ++ [ESend e]) ++ [EClose])).
Proof.
  intros Hn. unfold_m. rewrite Hn. simpl.
  destruct (srv w); reflexivity.
Qed.

Lemma Start_gives_up env w e :
  notify (srv w) = make_chan 1 ->
  startup_failure env (srv w) = Some e ->
  exists entries l,
    Start env w =
    Done tt (mkWorld (set_notify (mkChan [e] 1 true) (set_listener l (srv w)))
                     (expConnectsTotal w) (goroutines w)
                     (trace w ++ map ELog entries ++ [ESend e; EClose])).
Proof.
  intros Hn Hfail. unfold startup_failure in Hfail. unfold Start.
  unfold bind at 1. unfold get_srv at 1.
  destruct (ResolveTCPAddr env "tcp4" (Addr (config (srv w)))) as [addr|err].
  - set (r := if ForceTLS (config (srv w)) then _ else _).
    assert (Hr : r = (None, Some e)).
    { subst r. destruct (ForceTLS (config (srv w))); rewrite Hfail;
        reflexivity. }
    rewrite Hr.
    exists [startup_logger InfoLevel [("addr", addrString addr)] None
              "SMTP listening on tcp4";
            startup_logger ErrorLevel [] (Some e)
              "Failed to start tcp4 listener"], None.
    unfold bind at 1. unfold log_Msg at 1, emit at 1.
    unfold bind at 1. unfold bind at 1. unfold log_Msg at 1, emit at 1.
    rewrite send_then_close by (simpl; exact Hn).
    simpl. rewrite <- !app_assoc. reflexivity.
  - injection Hfail as ->.
    exists [startup_logger ErrorLevel [] (Some e)
              "Failed to build tcp4 address"], (listener (srv w)).
    unfold bind at 1. unfold log_Msg at 1, emit at 1.
    rewrite send_then_close by (simpl; exact Hn).
    simpl. rewrite <- !app_assoc.
    destruct (srv w); reflexivity.
Qed.

Lemma sends_app tr1 tr2 : sends (tr1 ++ tr2) = sends tr1 ++ sends tr2.
Proof. apply flat_map_app. Qed.

Lemma sleeps_app tr1 tr2 : sleeps (tr1 ++ tr2) = sleeps tr1 ++ sleeps tr2.
Proof. apply flat_map_app. Qed.

Lemma ready_calls_app tr1 tr2 :
  ready_calls (tr1 ++ tr2) = (ready_calls tr1 + ready_calls tr2)%nat.
Proof. unfold ready_calls. rewrite filter_app. apply length_app. Qed.

Lemma sends_logs entries : sends (map ELog entries) = [].
Proof. induction entries; simpl; auto. Qed.

Lemma sleeps_logs entries : sleeps (map ELog entries) = [].
Proof. induction entries; simpl; auto. Qed.

Lemma ready_calls_logs entries : ready_calls (map ELog entries) = 0%nat.
Proof. unfold ready_calls. induction entries; simpl; auto. Qed.

(** C6: when the address does not resolve or the socket cannot be bound,
    [Start] on a server with a fresh notifier pushes exactly one error (that
    one) to the notifier, closes it and returns at once; the ready callback
    is not called and the accept loop is not launched. *)
Theorem Start_failure_is_fatal :
  forall env w e,
    notify (srv w) = make_chan 1 ->
    startup_failure env (srv w) = Some e ->
    exists w',
      Start env w = Done tt w'
      /\ sends (trace w') = sends (trace w) ++ [e]
      /\ notify (srv w') = mkChan [e] 1 true
      /\ ready_calls (trace w') = ready_calls (trace w)
      /\ sleeps (trace w') = sleeps (trace w)
      /\ goroutines w' = goroutines w.
Proof.
  intros env w e Hn Hfail.
  destruct (Start_gives_up env w e Hn Hfail) as (entries & l & Hstart).
  eexists. split; [exact Hstart |]. simpl.
  rewrite !sends_app, !sleeps_app, !ready_calls_app.
  rewrite sends_logs, sleeps_logs, ready_calls_logs. simpl.
  rewrite app_nil_r. repeat split; auto.
Qed.

Lemma Start_failure_is_fatal_witness :
  notify (srv world0) = make_chan 1
  /\ startup_failure env_nohost (srv world0) = Some errNoHost
  /\ exists w',
       Start env_nohost world0 = Done tt w'
       /\ sends (trace w') = sends (trace world0) ++ [errNoHost]
       /\ notify (srv w') = mkChan [errNoHost] 1 true
       /\ ready_calls (trace w') = ready_calls (trace world0)
       /\ sleeps (trace w') = sleeps (trace world0)
       /\ goroutines w' = goroutines world0.
Proof.
  split; [reflexivity |]. split; [reflexivity |].
  apply (Start_failure_is_fatal env_nohost world0 errNoHost);
    reflexivity.
Defined.

Example Start_port_taken :
  startup_failure env_inuse (srv world0) = Some errInUse
  /\ Start env_inuse world0 =
     Done tt (mkWorld (set_notify (mkChan [errInUse] 1 true) (srv world0))
                0 []
                [ELog (startup_logger InfoLevel [("addr", "0.0.0.0:2500")]
                         None "SMTP listening on tcp4");
                 ELog (startup_logger ErrorLevel [] (Some errInUse)
                         "Failed to start tcp4 listener");
                 ESend errInUse; EClose]).
Proof. split; reflexivity. Qed.

(** When nothing fails at startup, [Start] binds the listener the
    configuration asks for, launches [serve] and calls the ready callback
    once; the notifier, the session tracker, the configuration and the TLS
    context are as they were. *)
Lemma Start_listens_world env w addr :
  ResolveTCPAddr env "tcp4" (Addr (config (srv w))) = inl addr ->
  startup_failure env (srv w) = None ->
  exists tr,
    world_of (Start env w) =
    mkWorld (set_listener (Some (bound_listener (srv w) addr)) (srv w))
            (expConnectsTotal w) (goroutines w ++ [GServe])
            (trace w ++ tr)
    /\ sends tr = [] /\ sleeps tr = [] /\ ready_calls tr = 1%nat.
Proof.
  intros Hres Hok.
  unfold startup_failure in Hok. rewrite Hres in Hok.
  unfold Start, bound_listener. unfold bind at 1. unfold get_srv at 1.
  rewrite Hres.
  set (r := if ForceTLS (config (srv w)) then _ else _).
  assert (Hr : r = (Some (if ForceTLS (config (srv w))
                          then TLSListener (addrString addr)
                                           (tlsConfig (srv w))
                          else TCPListener addr), None)).
  { subst r. destruct (ForceTLS (config (srv w))); rewrite Hok;
      reflexivity. }
  rewrite Hr. unfold_m.
  destruct (cancelled env); [destruct (listener_Close env) |]; cbn;
    unfold with_trace; cbn; rewrite <- ?app_assoc; cbn;
    eexists; (split; [reflexivity |]); repeat split.
Qed.

Lemma Start_listens env w addr :
  ResolveTCPAddr env "tcp4" (Addr (config (srv w))) = inl addr ->
  startup_failure env (srv w) = None ->
  srv (world_of (Start env w))
  = set_listener (Some (bound_listener (srv w) addr)) (srv w)
  /\ goroutines (world_of (Start env w)) = goroutines w ++ [GServe]
  /\ expConnectsTotal (world_of (Start env w)) = expConnectsTotal w
  /\ sends (trace (world_of (Start env w))) = sends (trace w)
  /\ ready_calls (trace (world_of (Start env w)))
     = S (ready_calls (trace w)).
Proof.
  intros Hres Hok.
  destruct (Start_listens_world env w addr Hres Hok)
    as (tr & -> & Hsends & _ & Hready).
  simpl. rewrite sends_app, ready_calls_app, Hsends, Hready, app_nil_r.
  repeat split; auto. lia.
Qed.

(** C3, as stated, fails: with TLS enabled, force-TLS set and a key pair
    that cannot be loaded, the stored configuration still has force-TLS set,
    and [Start] at an address that resolves and binds gives a TLS-wrapped
    listener, not a plaintext one. *)
Lemma failed_load_keeps_force_tls :
  TLSEnabled cfg_forcetls = true
  /\ snd (LoadX509KeyPair (env_nocert [] false) (TLSCert cfg_forcetls)
                          (TLSPrivKey cfg_forcetls)) = Some errNoFile
  /\ ForceTLS (config (fst
       (NewServer (env_nocert [] false) cfg_forcetls 1%nat 2%nat 3%nat)))
     = true
  /\ startup_failure (env_nocert [] false)
       (fst (NewServer (env_nocert [] false) cfg_forcetls 1%nat 2%nat 3%nat))
     = None
  /\ listener (srv (world_of
       (Start (env_nocert [] false)
              (boot (env_nocert [] false) cfg_forcetls 1%nat 2%nat 3%nat))))
     = Some (TLSListener "0.0.0.0:2500" (mk_tls_Config [zero_Certificate])).
Proof. repeat split. Qed.

(** C3 (amended): with TLS enabled and a key pair that fails to load,
    [NewServer] logs the error, turns off the TLS-enabled flag of the stored
    configuration, leaves the force-TLS flag as configured, and returns a
    server all the same; a later [Start] at an address that resolves and
    binds has a plaintext listener when force-TLS is not set, and a
    TLS-wrapped one over the retained TLS context when it is. *)
Theorem NewServer_absorbs_tls_failure :
  forall env cfg m p h cert e,
    TLSEnabled cfg = true ->
    LoadX509KeyPair env (TLSCert cfg) (TLSPrivKey cfg) = (cert, Some e) ->
    snd (NewServer env cfg m p h)
    = [tls_logger ErrorLevel None "Failed loading X509 KeyPair: %v"
                  [ArgErr e];
       tls_logger ErrorLevel None "Disabling STARTTLS support" []]
    /\ config (fst (NewServer env cfg m p h)) = set_TLSEnabled false cfg
    /\ ForceTLS (config (fst (NewServer env cfg m p h))) = ForceTLS cfg
    /\ (forall addr,
          ResolveTCPAddr env "tcp4" (Addr cfg) = inl addr ->
          startup_failure env (fst (NewServer env cfg m p h)) = None ->
          listener (srv (world_of (Start env (boot env cfg m p h))))
          = Some (if ForceTLS cfg
                  then TLSListener (addrString addr) (mk_tls_Config [cert])
                  else TCPListener addr)).
Proof.
  intros env cfg m p h cert e Hon Hload.
  pose proof (NewServer_load_failed env cfg m p h cert e Hon Hload) as Hnew.
  rewrite Hnew. simpl. repeat split.
  intros addr Hres Hok.
  destruct (Start_listens env (boot env cfg m p h) addr) as (Hsrv & _).
  - rewrite boot_srv, Hnew. simpl. exact Hres.
  - rewrite boot_srv, Hnew. exact Hok.
  - rewrite Hsrv, boot_srv, Hnew. unfold bound_listener. simpl.
    reflexivity.
Qed.

Lemma NewServer_absorbs_tls_failure_witness :
  TLSEnabled cfg_starttls = true
  /\ LoadX509KeyPair (env_nocert [] false) (TLSCert cfg_starttls)
                     (TLSPrivKey cfg_starttls)
     = (zero_Certificate, Some errNoFile)
  /\ config (fst (NewServer (env_nocert [] false) cfg_starttls
                            1%nat 2%nat 3%nat))
     = set_TLSEnabled false cfg_starttls
  /\ listener (srv (world_of
       (Start (env_nocert [] false)
              (boot (env_nocert [] false) cfg_starttls 1%nat 2%nat 3%nat))))
     = Some (TCPListener (mkTCPAddr "0.0.0.0:2500")).
Proof.
  pose proof (NewServer_absorbs_tls_failure (env_nocert [] false)
                cfg_starttls 1%nat 2%nat 3%nat zero_Certificate errNoFile
                eq_refl eq_refl) as (_ & Hcfg & _ & Hstart).
  split; [reflexivity |]. split; [reflexivity |]. split; [exact Hcfg |].
  apply (Hstart (mkTCPAddr "0.0.0.0:2500")); reflexivity.
Defined.

(** ** Machine arithmetic in the loop *)

Lemma wrap_small z :
  GoInt.min_int <= z <= GoInt.max_int -> GoInt.wrap z = z.
Proof.
  unfold GoInt.wrap, GoInt.min_int, GoInt.max_int. intros Hz.
  rewrite Z.mod_small; lia.
Qed.

Lemma next_delay_zero : next_delay 0 = 5 * time.Millisecond.
Proof. reflexivity. Qed.

(** Below the cap the doubling does not wrap around. *)
Lemma next_delay_doubles d :
  0 < d <= 1 * time.Second ->
  next_delay d = Z.min (2 * d) (1 * time.Second).
Proof.
  intros Hd. unfold next_delay, GoInt.mul.
  destruct (Z.eqb_spec d 0) as [Hz|_]; [lia |].
  rewrite wrap_small.
  - destruct (Z.gtb_spec (d * 2) (1 * time.Second)); lia.
  - unfold GoInt.min_int, GoInt.max_int, time.Second, time.Millisecond,
      time.Microsecond, time.Nanosecond in *. lia.
Qed.

Lemma next_delay_range d :
  0 <= d <= 1 * time.Second -> 0 < next_delay d <= 1 * time.Second.
Proof.
  intros Hd. destruct (Z.eq_dec d 0) as [->|Hnz].
  - rewrite next_delay_zero. unfold time.Second, time.Millisecond,
      time.Microsecond, time.Nanosecond. lia.
  - rewrite next_delay_doubles by lia. lia.
Qed.

(** ** One iteration of the accept loop *)

Lemma serve_iter_accepts ev c st w :
  accepted ev = inl c ->
  0 <= counter (wg (srv w)) ->
  serve_iter ev st w =
  Done (Some (mkLoop 0 (GoInt.add (sessionID st) 1)))
       (mkWorld (set_wg (mkWaitGroup (counter (wg (srv w)) + 1)) (srv w))
                (GoInt.add (expConnectsTotal w) 1)
                (goroutines w ++ [GSession (sessionID st) c])
                (trace w)).
Proof.
  intros Hev Hwg. unfold serve_iter, serve_body. rewrite Hev. unfold_m.
  simpl. destruct (Z.ltb_spec (counter (wg (srv w)) + 1) 0); [lia |].
  reflexivity.
Qed.

Lemma serve_iter_times_out ev e st w :
  accepted ev = inr e ->
  is_timeout e = true ->
  serve_iter ev st w =
  Done (Some (mkLoop (next_delay (tempDelay st))
                     (GoInt.add (sessionID st) 1)))
       (mkWorld (srv w) (expConnectsTotal w) (goroutines w)
                (trace w ++ [ELog (timeout_entry e (next_delay (tempDelay st)));
                             ESleep (next_delay (tempDelay st))])).
Proof.
  intros Hev Ht. unfold serve_iter, serve_body. rewrite Hev, Ht. unfold_m.
  cbn. rewrite <- ?app_assoc. reflexivity.
Qed.

Lemma serve_iter_shutdown ev e st w :
  accepted ev = inr e ->
  is_timeout e = false ->
  ctxDone ev = true ->
  serve_iter ev st w = Done None w.
Proof.
  intros Hev Ht Hctx. unfold serve_iter, serve_body.
  rewrite Hev, Ht, Hctx. reflexivity.
Qed.

Lemma serve_iter_fatal ev e st w :
  accepted ev = inr e ->
  is_timeout e = false ->
  ctxDone ev = false ->
  notify (srv w) = make_chan 1 ->
  serve_iter ev st w =
  Done None (mkWorld (set_notify (mkChan [e] 1 true) (srv w))
                     (expConnectsTotal w) (goroutines w)
                     (trace w ++ [ESend e; EClose])).
Proof.
  intros Hev Ht Hctx Hn. unfold serve_iter, serve_body.
  rewrite Hev, Ht, Hctx. unfold_m. rewrite Hn. simpl.
  rewrite <- app_assoc. destruct (srv w); reflexivity.
Qed.

(** C8, as stated, fails: an iteration whose [Accept] times out leaves the
    loop with a session-identifier counter one higher than it found (and
    what it logs is an error-level entry, not a warning). *)
Lemma timeout_advances_session_counter :
  is_transient accept_timeout = true
  /\ option_map (option_map sessionID)
       (value_of (serve_iter accept_timeout (mkLoop 0 1) world0))
     = Some (Some 2)
  /\ 2 <> sessionID (mkLoop 0 1)
  /\ map level (logged (trace (world_of
       (serve_iter accept_timeout (mkLoop 0 1) world0))))
     = [ErrorLevel]
  /\ ErrorLevel <> WarnLevel.
Proof. repeat split; discriminate. Qed.

(** C8 (amended): on a transient accept failure the iteration logs an
    error-level entry that carries the chosen delay, sleeps for that delay
    and goes round again; the session tracker, the accepted-connections
    counter and the sessions launched are as before, the carried delay is
    the chosen one, and the session-identifier counter is one higher. *)
Theorem serve_timeout_frame :
  forall ev e rest st w,
    accepted ev = inr e ->
    is_timeout e = true ->
    exists w',
      serve_iter ev st w =
      Done (Some (mkLoop (next_delay (tempDelay st))
                         (GoInt.add (sessionID st) 1))) w'
      /\ trace w' = trace w ++
                    [ELog (timeout_entry e (next_delay (tempDelay st)));
                     ESleep (next_delay (tempDelay st))]
      /\ level (timeout_entry e (next_delay (tempDelay st))) = ErrorLevel
      /\ args (timeout_entry e (next_delay (tempDelay st)))
         = [ArgDuration (next_delay (tempDelay st))]
      /\ srv w' = srv w
      /\ counter (wg (srv w')) = counter (wg (srv w))
      /\ expConnectsTotal w' = expConnectsTotal w
      /\ goroutines w' = goroutines w
      /\ serve_loop (ev :: rest) st w =
         serve_loop rest (mkLoop (next_delay (tempDelay st))
                                 (GoInt.add (sessionID st) 1)) w'.
Proof.
  intros ev e rest st w Hev Ht.
  eexists. split; [apply (serve_iter_times_out ev e st w Hev Ht) |].
  simpl. repeat split.
  unfold bind. rewrite (serve_iter_times_out ev e st w Hev Ht). reflexivity.
Qed.

Lemma serve_timeout_frame_witness :
  accepted accept_timeout = inr errTimeout
  /\ is_timeout errTimeout = true
  /\ exists w',
       serve_iter accept_timeout (mkLoop 0 1) world0 =
       Done (Some (mkLoop 5000000 2)) w'
       /\ sleeps (trace w') = [5000000]
       /\ srv w' = srv world0
       /\ expConnectsTotal w' = 0.
Proof.
  split; [reflexivity |]. split; [reflexivity |].
  destruct (serve_timeout_frame accept_timeout errTimeout [] (mkLoop 0 1)
              world0 eq_refl eq_refl)
    as (w' & Hiter & Htrace & _ & _ & Hsrv & _ & Hexp & _).
  exists w'. split; [exact Hiter |]. split; [rewrite Htrace; reflexivity |].
  split; [exact Hsrv | exact Hexp].
Defined.

(** ** Permanent accept failures *)

(** C5: on a permanent (non-timeout) accept failure, with the notifier
    fresh as [NewServer] made it, what the loop does depends on the
    cancellation signal alone.  Signal active: [serve] returns and the world
    is untouched (nothing pushed, nothing logged).  Signal not active: the
    error is pushed to the notifier, the notifier is closed and [serve]
    returns.  Either way no later result of [Accept] is looked at. *)
Theorem serve_permanent_failure :
  forall ev e rest st w,
    accepted ev = inr e ->
    is_timeout e = false ->
    notify (srv w) = make_chan 1 ->
    (ctxDone ev = true ->
     serve_loop (ev :: rest) st w = Done tt w)
    /\ (ctxDone ev = false ->
        serve_loop (ev :: rest) st w =
        Done tt (mkWorld (set_notify (mkChan [e] 1 true) (srv w))
                         (expConnectsTotal w) (goroutines w)
                         (trace w ++ [ESend e; EClose]))).
Proof.
  intros ev e rest st w Hev Ht Hn. split; intros Hctx; simpl; unfold bind.
  - rewrite (serve_iter_shutdown ev e st w Hev Ht Hctx). reflexivity.
  - rewrite (serve_iter_fatal ev e st w Hev Ht Hctx Hn). reflexivity.
Qed.

Lemma serve_permanent_failure_witness :
  notify (srv world0) = make_chan 1
  /\ serve_loop [accept_closed; accept_ok 4%nat] (mkLoop 0 1) world0
     = Done tt world0
  /\ sends (trace (world_of
       (serve_loop [accept_broken; accept_ok 4%nat] (mkLoop 0 1) world0)))
     = [errReset]
  /\ closed (notify (srv (world_of
       (serve_loop [accept_broken; accept_ok 4%nat] (mkLoop 0 1) world0))))
     = true.
Proof.
  pose proof (serve_permanent_failure accept_closed errClosed
                [accept_ok 4%nat] (mkLoop 0 1) world0 eq_refl eq_refl eq_refl)
    as (Hquiet & _).
  pose proof (serve_permanent_failure accept_broken errReset
                [accept_ok 4%nat] (mkLoop 0 1) world0 eq_refl eq_refl eq_refl)
    as (_ & Hfatal).
  split; [reflexivity |]. split; [exact (Hquiet eq_refl) |].
  rewrite (Hfatal eq_refl). split; reflexivity.
Defined.

(** ** The loop over several results of [Accept] *)

Lemma serve_loop_app pre rest st w :
  serve_loop (pre ++ rest) st w =
  match iterate pre st w with
  | Done (Some st') w' => serve_loop rest st' w'
  | Done None w' => Done tt w'
  | Halted h w' => Halted h w'
  end.
Proof.
  revert st w. induction pre as [|ev pre IH]; intros st w; simpl.
  - reflexivity.
  - unfold bind. destruct (serve_iter ev st w) as [[st'|] w'|h w'].
    + apply IH.
    + reflexivity.
    + reflexivity.
Qed.

Lemma iterate_app pre rest st w :
  iterate (pre ++ rest) st w =
  match iterate pre st w with
  | Done (Some st') w' => iterate rest st' w'
  | Done None w' => Done None w'
  | Halted h w' => Halted h w'
  end.
Proof.
  revert st w. induction pre as [|ev pre IH]; intros st w; simpl.
  - reflexivity.
  - unfold bind. destruct (serve_iter ev st w) as [[st'|] w'|h w'].
    + apply IH.
    + reflexivity.
    + reflexivity.
Qed.

(** With nothing more observed, [serve] is parked in [Accept], in the world
    its iterations made. *)
Lemma serve_loop_parked evs st st' w w' :
  iterate evs st w = Done (Some st') w' ->
  serve_loop evs st w = Halted (Parked OnAccept) w'.
Proof.
  intros Hit. rewrite <- (app_nil_r evs), serve_loop_app, Hit. reflexivity.
Qed.

(** An iteration on a permanent failure ends [serve] (or halts in the send)
    and launches nothing. *)
Lemma serve_iter_permanent ev e st w :
  accepted ev = inr e ->
  is_timeout e = false ->
  value_of (serve_iter ev st w) <> None ->
  value_of (serve_iter ev st w) = Some None.
Proof.
  intros Hev Ht. unfold serve_iter, serve_body. rewrite Hev, Ht.
  destruct (ctxDone ev); [reflexivity |]. unfold_m.
  destruct (closed (notify (srv w))); simpl; [congruence |].
  destruct (List.length (buf (notify (srv w))) <? cap (notify (srv w)))%nat;
    simpl; congruence.
Qed.

Lemma serve_iter_permanent_frame ev e st w :
  accepted ev = inr e ->
  is_timeout e = false ->
  nothing_dispatched w (world_of (serve_iter ev st w)).
Proof.
  intros Hev Ht. unfold serve_iter, serve_body, nothing_dispatched.
  rewrite Hev, Ht.
  destruct (ctxDone ev); [simpl; auto |]. unfold_m.
  destruct (closed (notify (srv w))); simpl; [auto |].
  destruct (List.length (buf (notify (srv w))) <? cap (notify (srv w)))%nat;
    simpl; [| auto].
  rewrite !sleeps_app. simpl. rewrite !app_nil_r. auto.
Qed.

(** Iterations without a permanent failure keep the loop going, whatever
    the notifier holds. *)
Lemma iterate_goes_on evs st w :
  Forall (fun ev => is_permanent ev = false) evs ->
  0 <= counter (wg (srv w)) ->
  exists st' w',
    iterate evs st w = Done (Some st') w'
    /\ 0 <= counter (wg (srv w'))
    /\ notify (srv w') = notify (srv w).
Proof.
  intros Hevs. revert st w.
  induction Hevs as [|ev evs Hev _ IH]; intros st w Hwg; simpl.
  - exists st, w. auto.
  - unfold bind. unfold is_permanent in Hev.
    destruct (accepted ev) as [c|e] eqn:Hacc.
    + rewrite (serve_iter_accepts ev c st w Hacc Hwg).
      edestruct IH as (st' & w' & Hit & Hwg' & Hn'); [| rewrite Hit].
      * simpl. lia.
      * exists st', w'. repeat split; auto.
    + apply negb_false_iff in Hev.
      rewrite (serve_iter_times_out ev e st w Hacc Hev).
      edestruct IH as (st' & w' & Hit & Hwg' & Hn'); [| rewrite Hit].
      * simpl. exact Hwg.
      * exists st', w'. repeat split; auto.
Qed.

(** ** Backoff *)

Lemma backoff_range i : 0 < backoff i <= 1 * time.Second.
Proof.
  unfold backoff, time.Second, time.Millisecond, time.Microsecond,
    time.Nanosecond.
  assert (0 < 2 ^ Z.of_nat i) by (apply Z.pow_pos_nonneg; lia). lia.
Qed.

Lemma backoff_next i : next_delay (backoff i) = backoff (S i).
Proof.
  rewrite next_delay_doubles by apply backoff_range.
  unfold backoff. rewrite Nat2Z.inj_succ, Z.pow_succ_r by lia.
  unfold time.Second, time.Millisecond, time.Microsecond, time.Nanosecond.
  lia.
Qed.

Lemma delays_from_backoff i n :
  delays_from (backoff i) n = map backoff (seq (S i) n).
Proof.
  revert i. induction n as [|n IH]; intros i; simpl.
  - reflexivity.
  - rewrite backoff_next, IH. reflexivity.
Qed.

Lemma delays_from_start n : delays_from 0 n = map backoff (seq 0 n).
Proof.
  destruct n as [|n]; simpl.
  - reflexivity.
  - rewrite next_delay_zero.
    change (5 * time.Millisecond) with (backoff 0).
    rewrite delays_from_backoff. reflexivity.
Qed.

Example backoff_first_ten :
  map backoff (seq 0 11)
  = [5000000; 10000000; 20000000; 40000000; 80000000; 160000000;
     320000000; 640000000; 1000000000; 1000000000; 1000000000].
Proof. reflexivity. Qed.

Lemma iterate_timeouts ts st w :
  Forall (fun ev => is_transient ev = true) ts ->
  exists st' w',
    iterate ts st w = Done (Some st') w'
    /\ sleeps (trace w')
       = sleeps (trace w) ++ delays_from (tempDelay st) (List.length ts).
Proof.
  intros Hts. revert st w.
  induction Hts as [|ev ts Hev _ IH]; intros st w; simpl.
  - exists st, w. rewrite app_nil_r. auto.
  - unfold bind. unfold is_transient in Hev.
    destruct (accepted ev) as [c|e] eqn:Hacc; [discriminate |].
    rewrite (serve_iter_times_out ev e st w Hacc Hev).
    destruct (IH (mkLoop (next_delay (tempDelay st))
                         (GoInt.add (sessionID st) 1))
                 (mkWorld (srv w) (expConnectsTotal w) (goroutines w)
                    (trace w ++
                     [ELog (timeout_entry e (next_delay (tempDelay st)));
                      ESleep (next_delay (tempDelay st))])))
      as (st' & w' & Hit & Hsl).
    exists st', w'. split; [exact Hit |].
    rewrite Hsl. simpl. rewrite sleeps_app. simpl.
    rewrite <- app_assoc. reflexivity.
Qed.

(** After a successful accept the delay carried is zero. *)
Lemma iterate_resets_delay pre ev st w st' w' :
  is_success ev = true ->
  iterate (pre ++ [ev]) st w = Done (Some st') w' ->
  tempDelay st' = 0.
Proof.
  intros Hok. rewrite iterate_app.
  destruct (iterate pre st w) as [[st1|] w1|h w1]; try discriminate.
  simpl. unfold bind, serve_iter, serve_body, is_success in *.
  destruct (accepted ev) as [c|e]; [| discriminate]. unfold_m.
  cbn. destruct (counter (wg (srv w1)) + 1 <? 0); [discriminate |].
  intros Heq. injection Heq as <- _. reflexivity.
Qed.

(** C4: in a run of consecutive transient accept failures that starts the
    loop or follows a successful accept, the delays slept are 5ms, 10ms,
    20ms, ... doubling each time and capped at 1s: the i-th one is
    [min (5ms * 2^i) 1s].  In particular the first transient failure after
    a successful accept sleeps 5ms again.  (On each failure the delay
    chosen is 5ms when the carried one is zero, otherwise its double capped
    at 1s; a successful accept carries zero on.) *)
Theorem backoff_schedule :
  forall pre ts w,
    Forall (fun ev => is_permanent ev = false) pre ->
    (pre = [] \/ exists pre' ev, pre = pre' ++ [ev] /\ is_success ev = true) ->
    Forall (fun ev => is_transient ev = true) ts ->
    0 <= counter (wg (srv w)) ->
    sleeps (trace (world_of (serve (pre ++ ts) w)))
    = sleeps (trace (world_of (serve pre w)))
      ++ map backoff (seq 0 (List.length ts)).
Proof.
  intros pre ts w Hpre Hlast Hts Hwg. unfold serve.
  destruct (iterate_goes_on pre (mkLoop 0 1) w Hpre Hwg)
    as (st1 & w1 & Hit1 & _ & _).
  assert (Hzero : tempDelay st1 = 0).
  { destruct Hlast as [-> | (pre' & ev & -> & Hok)].
    - simpl in Hit1. injection Hit1 as <- _. reflexivity.
    - apply (iterate_resets_delay pre' ev (mkLoop 0 1) w st1 w1 Hok Hit1). }
  rewrite (serve_loop_parked pre (mkLoop 0 1) st1 w w1 Hit1).
  rewrite serve_loop_app, Hit1.
  destruct (iterate_timeouts ts st1 w1 Hts) as (st2 & w2 & Hit2 & Hsl).
  rewrite (serve_loop_parked ts st1 st2 w1 w2 Hit2). simpl.
  rewrite Hsl, Hzero, delays_from_start. reflexivity.
Qed.

Lemma backoff_schedule_witness :
  sleeps (trace (world_of
    (serve ([accept_timeout; accept_ok 4%nat]
            ++ [accept_timeout; accept_timeout; accept_timeout]) world0)))
  = sleeps (trace (world_of (serve [accept_timeout; accept_ok 4%nat] world0)))
    ++ [5000000; 10000000; 20000000].
Proof.
  apply (backoff_schedule [accept_timeout; accept_ok 4%nat]
           [accept_timeout; accept_timeout; accept_timeout] world0).
  - repeat constructor.
  - right. exists [accept_timeout], (accept_ok 4%nat). split; reflexivity.
  - repeat constructor.
  - simpl. lia.
Defined.

(** ** Session identifiers *)

Lemma session_ids_app gs1 gs2 :
  session_ids (gs1 ++ gs2) = session_ids gs1 ++ session_ids gs2.
Proof. apply flat_map_app. Qed.

Lemma accept_iterations_lower evs k :
  Forall (fun i => k <= i) (accept_iterations evs k).
Proof.
  revert k. induction evs as [|ev evs IH]; intros k; simpl.
  - constructor.
  - assert (Hnext : Forall (fun i => k <= i) (accept_iterations evs (k + 1))).
    { eapply Forall_impl; [| apply IH]. simpl. intros; lia. }
    destruct (accepted ev) as [c|e].
    + constructor; [lia | exact Hnext].
    + destruct (is_timeout e); [exact Hnext | constructor].
Qed.

Lemma accept_iterations_sorted evs k :
  StronglySorted Z.lt (accept_iterations evs k).
Proof.
  revert k. induction evs as [|ev evs IH]; intros k; simpl.
  - constructor.
  - destruct (accepted ev) as [c|e].
    + constructor; [apply IH |].
      eapply Forall_impl; [| apply accept_iterations_lower].
      simpl. intros; lia.
    + destruct (is_timeout e); [apply IH | constructor].
Qed.

Lemma sorted_lt_NoDup (l : list Z) : StronglySorted Z.lt l -> NoDup l.
Proof.
  induction 1 as [|a l _ IH Hall]; constructor; auto.
  intros Hin. rewrite Forall_forall in Hall. specialize (Hall a Hin). lia.
Qed.

Lemma accept_iterations_all_accepted evs k :
  Forall (fun ev => is_success ev = true) evs ->
  accept_iterations evs k = count_from k (List.length evs).
Proof.
  intros Hevs. revert k.
  induction Hevs as [|ev evs Hev _ IH]; intros k; simpl.
  - reflexivity.
  - unfold is_success in Hev. destruct (accepted ev); [| discriminate].
    rewrite IH. reflexivity.
Qed.

Lemma serve_loop_session_ids evs st w :
  0 <= counter (wg (srv w)) ->
  GoInt.min_int <= sessionID st ->
  sessionID st + Z.of_nat (List.length evs) <= GoInt.max_int ->
  session_ids (goroutines (world_of (serve_loop evs st w)))
  = session_ids (goroutines w) ++ accept_iterations evs (sessionID st).
Proof.
  revert st w. induction evs as [|ev evs IH]; intros st w Hwg Hlo Hhi.
  - simpl. rewrite app_nil_r. reflexivity.
  - cbn [serve_loop accept_iterations]. unfold bind.
    cbn [List.length] in Hhi. rewrite Nat2Z.inj_succ in Hhi.
    assert (Hadd : GoInt.add (sessionID st) 1 = sessionID st + 1).
    { unfold GoInt.add. apply wrap_small. lia. }
    destruct (accepted ev) as [c|e] eqn:Hacc.
    + rewrite (serve_iter_accepts ev c st w Hacc Hwg), Hadd.
      rewrite IH; cbn [sessionID goroutines srv wg counter set_wg]; try lia.
      rewrite session_ids_app, <- app_assoc. reflexivity.
    + destruct (is_timeout e) eqn:Ht.
      * rewrite (serve_iter_times_out ev e st w Hacc Ht), Hadd.
        rewrite IH; cbn [sessionID goroutines srv]; try lia. reflexivity.
      * pose proof (serve_iter_permanent ev e st w Hacc Ht) as Hval.
        pose proof (serve_iter_permanent_frame ev e st w Hacc Ht)
          as (Hgo & _).
        rewrite app_nil_r, <- Hgo.
        destruct (serve_iter ev st w) as [[st'|] w'|h w']; simpl in *;
          try reflexivity.
        assert (Some (Some st') = Some None) by (apply Hval; discriminate).
        discriminate.
Qed.

(** C1, as stated, fails: a transient accept failure moves the counter on,
    so the one session accepted after a timeout gets identifier 2. *)
Lemma timeout_leaves_gap :
  map is_success [accept_timeout; accept_ok 7%nat] = [false; true]
  /\ session_ids (goroutines (world_of
       (serve [accept_timeout; accept_ok 7%nat] world0)))
     = [2]
  /\ [2] <> count_from 1 1
  /\ option_map (option_map sessionID)
       (value_of (iterate [accept_timeout] (mkLoop 0 1) world0))
     = Some (Some 2).
Proof. repeat split; discriminate. Qed.

(** C1 (amended): over fewer than 2^63 iterations of one [serve], the
    identifier passed to a session handler is the number, counted from 1, of
    the loop iteration that accepted its connection; the identifiers are
    therefore strictly increasing in accept order, without repeats, and they
    are 1, 2, 3, ... without gaps when no accept before them failed.  The
    counter starts at 1 and moves on at every iteration that goes round
    again, after a successful accept and after a transient failure alike. *)
Theorem serve_session_ids :
  forall evs w,
    0 <= counter (wg (srv w)) ->
    Z.of_nat (List.length evs) < GoInt.max_int ->
    session_ids (goroutines (world_of (serve evs w)))
    = session_ids (goroutines w) ++ accept_iterations evs 1
    /\ StronglySorted Z.lt (accept_iterations evs 1)
    /\ NoDup (accept_iterations evs 1)
    /\ Forall (fun i => 1 <= i) (accept_iterations evs 1)
    /\ (Forall (fun ev => is_success ev = true) evs ->
        accept_iterations evs 1 = count_from 1 (List.length evs))
    /\ (forall ev st w1,
          is_permanent ev = false ->
          0 <= counter (wg (srv w1)) ->
          option_map (option_map sessionID) (value_of (serve_iter ev st w1))
          = Some (Some (GoInt.add (sessionID st) 1))).
Proof.
  intros evs w Hwg Hlen. split; [| split; [| split; [| split; [| split]]]].
  - unfold serve. apply serve_loop_session_ids;
      cbn [sessionID]; unfold GoInt.min_int, GoInt.max_int in *; lia.
  - apply accept_iterations_sorted.
  - apply sorted_lt_NoDup, accept_iterations_sorted.
  - apply accept_iterations_lower.
  - apply accept_iterations_all_accepted.
  - intros ev st w1 Hev Hwg1. unfold is_permanent in Hev.
    destruct (accepted ev) as [c|e] eqn:Hacc.
    + rewrite (serve_iter_accepts ev c st w1 Hacc Hwg1). reflexivity.
    + apply negb_false_iff in Hev.
      rewrite (serve_iter_times_out ev e st w1 Hacc Hev). reflexivity.
Qed.

Lemma serve_session_ids_witness :
  0 <= counter (wg (srv world0))
  /\ Z.of_nat (List.length [accept_ok 7%nat; accept_timeout; accept_ok 8%nat])
     < GoInt.max_int
  /\ session_ids (goroutines (world_of
       (serve [accept_ok 7%nat; accept_timeout; accept_ok 8%nat] world0)))
     = [1; 3].
Proof.
  split; [simpl; lia |]. split; [reflexivity |].
  apply (serve_session_ids
           [accept_ok 7%nat; accept_timeout; accept_ok 8%nat] world0).
  - simpl. lia.
  - reflexivity.
Defined.

(** ** The fatal notifier over a whole run *)

Lemma notifier_after_cons ev evs :
  notifier_after (ev :: evs) =
  match accepted ev with
  | inl _ => notifier_after evs
  | inr e =>
      if is_timeout e then notifier_after evs
      else if ctxDone ev then (make_chan 1, [])
      else (mkChan [e] 1 true, [e])
  end.
Proof.
  unfold notifier_after. cbn [find]. unfold is_permanent at 1.
  destruct (accepted ev) as [c|e] eqn:Hacc; [reflexivity |].
  destruct (is_timeout e); cbn [negb]; [reflexivity |].
  rewrite Hacc. reflexivity.
Qed.

Lemma serve_loop_notifier evs st w :
  notify (srv w) = make_chan 1 ->
  0 <= counter (wg (srv w)) ->
  notify (srv (world_of (serve_loop evs st w))) = fst (notifier_after evs)
  /\ sends (trace (world_of (serve_loop evs st w)))
     = sends (trace w) ++ snd (notifier_after evs).
Proof.
  revert st w. induction evs as [|ev evs IH]; intros st w Hn Hwg.
  - simpl. rewrite app_nil_r. auto.
  - cbn [serve_loop]. unfold bind. rewrite notifier_after_cons.
    destruct (accepted ev) as [c|e] eqn:Hacc.
    + rewrite (serve_iter_accepts ev c st w Hacc Hwg).
      match goal with
      | |- context [serve_loop evs ?st1 ?w1] =>
          destruct (IH st1 w1) as (Hnot & Hsends)
      end.
      * exact Hn.
      * cbn [srv wg set_wg counter]. lia.
      * split; [exact Hnot | exact Hsends].
    + destruct (is_timeout e) eqn:Ht.
      * rewrite (serve_iter_times_out ev e st w Hacc Ht).
        match goal with
        | |- context [serve_loop evs ?st1 ?w1] =>
            destruct (IH st1 w1 Hn Hwg) as (Hnot & Hsends)
        end.
        split; [exact Hnot |].
        rewrite Hsends. cbn [trace]. rewrite sends_app. simpl.
        rewrite app_nil_r. reflexivity.
      * destruct (ctxDone ev) eqn:Hctx.
        -- rewrite (serve_iter_shutdown ev e st w Hacc Ht Hctx). simpl.
           rewrite app_nil_r. auto.
        -- rewrite (serve_iter_fatal ev e st w Hacc Ht Hctx Hn). simpl.
           rewrite sends_app. auto.
Qed.

Lemma find_permanent_is_error evs ev :
  find is_permanent evs = Some ev -> exists e, accepted ev = inr e.
Proof.
  intros Hfind. apply find_some in Hfind as [_ Hperm].
  unfold is_permanent in Hperm.
  destruct (accepted ev) as [c|e]; [discriminate | eauto].
Qed.

(** C2, as stated, fails: on a clean shutdown (the context is cancelled,
    the listener is closed, [Accept] fails with the signal active) [Start]
    and [serve] both return and the notifier is still open. *)
Lemma clean_shutdown_leaves_notifier_open :
  ending (env_nocert [accept_ok 1%nat; accept_closed] true)
         (srv (boot (env_nocert [accept_ok 1%nat; accept_closed] true)
                    cfg_plain 1%nat 2%nat 3%nat))
  = CleanShutdown
  /\ returns (Start (env_nocert [accept_ok 1%nat; accept_closed] true)
                (boot (env_nocert [accept_ok 1%nat; accept_closed] true)
                      cfg_plain 1%nat 2%nat 3%nat))
     = true
  /\ returns (serve [accept_ok 1%nat; accept_closed]
                (world_of
                   (Start (env_nocert [accept_ok 1%nat; accept_closed] true)
                      (boot (env_nocert [accept_ok 1%nat; accept_closed] true)
                            cfg_plain 1%nat 2%nat 3%nat))))
     = true
  /\ notify (srv (lifetime
                    (env_nocert [accept_ok 1%nat; accept_closed] true)
                    (boot (env_nocert [accept_ok 1%nat; accept_closed] true)
                          cfg_plain 1%nat 2%nat 3%nat)))
     = mkChan [] 1 false.
Proof. repeat split. Qed.

(** C2 (amended): over a whole run of a freshly constructed server the
    notifier delivers at most one error.  When startup fails (resolution or
    bind) and when [Accept] fails permanently with the cancellation signal
    not active, that error is delivered and the notifier is closed.  On a
    clean shutdown through cancellation, and while the loop is still
    accepting, nothing is delivered and the notifier stays open. *)
Theorem notifier_over_lifetime :
  forall env cfg m p h,
    sends (trace (lifetime env (boot env cfg m p h)))
    = buf (notify (srv (lifetime env (boot env cfg m p h))))
    /\ (List.length (sends (trace (lifetime env (boot env cfg m p h)))) <= 1)%nat
    /\ notify (srv (lifetime env (boot env cfg m p h)))
       = match ending env (srv (boot env cfg m p h)) with
         | StartupFailure e => mkChan [e] 1 true
         | AcceptFailure e => mkChan [e] 1 true
         | CleanShutdown => make_chan 1
         | StillAccepting => make_chan 1
         end.
Proof.
  intros env cfg m p h.
  set (w0 := boot env cfg m p h).
  assert (Hn0 : notify (srv w0) = make_chan 1).
  { subst w0. rewrite boot_srv. apply NewServer_fresh. }
  assert (Hwg0 : counter (wg (srv w0)) = 0).
  { subst w0. rewrite boot_srv.
    destruct (NewServer_fresh env cfg m p h) as (_ & -> & _). reflexivity. }
  assert (Hgo0 : goroutines w0 = []) by apply boot_goroutines.
  assert (Hs0 : sends (trace w0) = []).
  { subst w0. rewrite boot_trace. apply sends_logs. }
  unfold lifetime, ending.
  destruct (startup_failure env (srv w0)) as [e|] eqn:Hfail.
  - destruct (Start_gives_up env w0 e Hn0 Hfail) as (entries & l & ->).
    cbn [world_of goroutines]. rewrite Hgo0. cbn [existsb].
    cbn [srv trace notify set_notify buf].
    rewrite !sends_app, sends_logs, Hs0. simpl. auto.
  - assert (Hres : exists addr,
               ResolveTCPAddr env "tcp4" (Addr (config (srv w0))) = inl addr).
    { unfold startup_failure in Hfail.
      destruct (ResolveTCPAddr env "tcp4" (Addr (config (srv w0))));
        [eauto | discriminate]. }
    destruct Hres as (addr & Hres).
    destruct (Start_listens_world env w0 addr Hres Hfail)
      as (tr & -> & Htr & _ & _).
    cbn [goroutines]. rewrite existsb_app. cbn [existsb is_serve].
    rewrite orb_true_r.
    match goal with
    | |- context [serve ?evs ?w1] =>
        destruct (serve_loop_notifier evs (mkLoop 0 1) w1) as (Hnot & Hsends)
    end.
    { cbn [srv notify set_listener]. exact Hn0. }
    { cbn [srv wg set_listener]. lia. }
    unfold serve. rewrite Hnot, Hsends. cbn [trace].
    rewrite sends_app, Hs0, Htr. cbn [app].
    unfold notifier_after.
    destruct (find is_permanent (accepts env)) as [ev|] eqn:Hfind;
      [| simpl; auto].
    destruct (find_permanent_is_error _ _ Hfind) as (e & ->).
    destruct (ctxDone ev); simpl; auto.
Qed.

Example lifetime_accept_failure :
  ending (env_nocert [accept_timeout; accept_broken] false) (srv world0)
  = AcceptFailure errReset
  /\ notify (srv (lifetime (env_nocert [accept_timeout; accept_broken] false)
                           world0))
     = mkChan [errReset] 1 true.
Proof. split; reflexivity. Qed.

(** ** The session tracker and Drain *)

(** [serve] adds one to the tracker for each session it launches. *)
Lemma serve_loop_tracks evs st w :
  0 <= counter (wg (srv w)) ->
  counter (wg (srv (world_of (serve_loop evs st w))))
  - Z.of_nat (List.length
                (session_ids (goroutines (world_of (serve_loop evs st w)))))
  = counter (wg (srv w))
    - Z.of_nat (List.length (session_ids (goroutines w))).
Proof.
  revert st w. induction evs as [|ev evs IH]; intros st w Hwg.
  - reflexivity.
  - cbn [serve_loop]. unfold bind.
    destruct (accepted ev) as [c|e] eqn:Hacc.
    + rewrite (serve_iter_accepts ev c st w Hacc Hwg).
      rewrite IH by (cbn [srv wg set_wg counter]; lia).
      cbn [srv wg set_wg counter goroutines].
      rewrite session_ids_app, length_app. simpl. lia.
    + destruct (is_timeout e) eqn:Ht.
      * rewrite (serve_iter_times_out ev e st w Hacc Ht).
        rewrite IH by exact Hwg. reflexivity.
      * pose proof (serve_iter_permanent ev e st w Hacc Ht) as Hval.
        pose proof (serve_iter_permanent_frame ev e st w Hacc Ht)
          as (Hgo & Hw & _).
        rewrite <- Hgo, <- Hw.
        destruct (serve_iter ev st w) as [[st'|] w'|h w']; simpl in *;
          try reflexivity.
        assert (Some (Some st') = Some None) by (apply Hval; discriminate).
        discriminate.
Qed.

(** Sessions that exit while the tracker counts at least that many take it
    down by one each. *)
Lemma exits_count ids w :
  Z.of_nat (List.length ids) <= counter (wg (srv w)) ->
  exists w',
    exits ids w = Done tt w'
    /\ counter (wg (srv w'))
       = counter (wg (srv w)) - Z.of_nat (List.length ids).
Proof.
  revert w. induction ids as [|id ids IH]; intros w Hle.
  - exists w. simpl. split; [reflexivity | lia].
  - cbn [List.length] in Hle. rewrite Nat2Z.inj_succ in Hle.
    cbn [exits]. unfold bind, session_exit, wg_Add.
    destruct (Z.ltb_spec (counter (wg (srv w)) + -1) 0); [lia |].
    destruct (IH (with_srv (set_wg (mkWaitGroup (counter (wg (srv w)) + -1)))
                           w))
      as (w' & Hex & Hcount).
    + cbn [with_srv srv set_wg wg counter]. lia.
    + exists w'. split; [exact Hex |].
      rewrite Hcount. cbn [with_srv srv set_wg wg counter List.length].
      rewrite Nat2Z.inj_succ. lia.
Qed.

Lemma Drain_returns_iff w :
  returns (Drain w) = true <-> counter (wg (srv w)) = 0.
Proof.
  unfold Drain, wg_Wait.
  destruct (Z.eqb_spec (counter (wg (srv w))) 0); simpl; split;
    intros; auto; try discriminate; contradiction.
Qed.

(** C7: [Drain] with no session in flight returns at once, the world
    untouched; and after [serve] has launched sessions from an idle tracker,
    whatever the order in which they exit, [Drain] returns exactly when all
    of them have exited: it is parked as long as one has not. *)
Theorem Drain_waits_for_sessions :
  (forall w, counter (wg (srv w)) = 0 -> Drain w = Done tt w)
  /\ (forall evs w order k,
        counter (wg (srv w)) = 0 ->
        session_ids (goroutines w) = [] ->
        Permutation order
          (session_ids (goroutines (world_of (serve evs w)))) ->
        (returns (Drain (world_of
           (exits (firstn k order) (world_of (serve evs w))))) = true
         <-> (List.length order <= k)%nat)
        /\ ((k < List.length order)%nat ->
            Drain (world_of
              (exits (firstn k order) (world_of (serve evs w))))
            = Halted (Parked OnWait)
                (world_of
                   (exits (firstn k order) (world_of (serve evs w)))))).
Proof.
  split.
  - intros w Hzero. unfold Drain, wg_Wait. rewrite Hzero. reflexivity.
  - intros evs w order k Hzero Hnone Hperm.
    pose proof (serve_loop_tracks evs (mkLoop 0 1) w) as Htrack.
    fold (serve evs) in Htrack.
    rewrite Hzero, Hnone in Htrack. simpl in Htrack.
    specialize (Htrack (Z.le_refl 0)).
    apply Permutation_length in Hperm. rewrite <- Hperm in Htrack.
    pose proof (length_firstn k order) as Hfirst.
    destruct (exits_count (firstn k order) (world_of (serve evs w)))
      as (w' & Hex & Hcount); [lia |].
    rewrite Hex. cbn [world_of]. split.
    + rewrite Drain_returns_iff. lia.
    + intros Hlt. unfold Drain, wg_Wait.
      destruct (Z.eqb_spec (counter (wg (srv w'))) 0); [lia | reflexivity].
Qed.

Lemma Drain_waits_for_sessions_witness :
  Drain world0 = Done tt world0
  /\ session_ids (goroutines (world_of
       (serve [accept_ok 7%nat; accept_ok 8%nat; accept_ok 9%nat] world0)))
     = [1; 2; 3]
  /\ returns (Drain (world_of
       (exits (firstn 2 [3; 1; 2])
          (world_of (serve [accept_ok 7%nat; accept_ok 8%nat; accept_ok 9%nat]
                           world0)))))
     = false
  /\ returns (Drain (world_of
       (exits (firstn 3 [3; 1; 2])
          (world_of (serve [accept_ok 7%nat; accept_ok 8%nat; accept_ok 9%nat]
                           world0)))))
     = true.
Proof.
  destruct Drain_waits_for_sessions as (Hidle & Hbusy).
  split; [apply Hidle; reflexivity |]. split; [reflexivity |].
  assert (Hperm : Permutation [3; 1; 2]
            (session_ids (goroutines (world_of
               (serve [accept_ok 7%nat; accept_ok 8%nat; accept_ok 9%nat]
                      world0))))).
  { change (Permutation [3; 1; 2] [1; 2; 3]).
    apply (Permutation_cons_app [1; 2] [] 3). apply Permutation_refl. }
  split.
  - destruct (Hbusy [accept_ok 7%nat; accept_ok 8%nat; accept_ok 9%nat]
                world0 [3; 1; 2] 2%nat eq_refl eq_refl Hperm) as (_ & Hpark).
    rewrite Hpark; [reflexivity | simpl; lia].
  - apply (Hbusy [accept_ok 7%nat; accept_ok 8%nat; accept_ok 9%nat]
             world0 [3; 1; 2] 3%nat eq_refl eq_refl Hperm). simpl. lia.
Defined.

(** ** The configuration and the TLS context after construction *)

Lemma same_setup_refl w : same_setup w w.
Proof. split; reflexivity. Qed.

Lemma same_setup_trans w1 w2 w3 :
  same_setup w1 w2 -> same_setup w2 w3 -> same_setup w1 w3.
Proof. intros [H1 H2] [H3 H4]. split; congruence. Qed.

Lemma keeps_ret {A : Type} (a : A) : keeps_setup (ret a).
Proof. intros w. apply same_setup_refl. Qed.

Lemma keeps_halt {A : Type} (h : Halt) : keeps_setup (@halt A h).
Proof. intros w. apply same_setup_refl. Qed.

Lemma keeps_bind {A B : Type} (m : M A) (k : A -> M B) :
  keeps_setup m -> (forall a, keeps_setup (k a)) -> keeps_setup (bind m k).
Proof.
  intros Hm Hk w. unfold bind. specialize (Hm w).
  destruct (m w) as [a w'|h w']; simpl in *.
  - eapply same_setup_trans; [exact Hm | apply Hk].
  - exact Hm.
Qed.

Lemma keeps_get_srv : keeps_setup get_srv.
Proof. intros w. apply same_setup_refl. Qed.

Lemma keeps_emit ev : keeps_setup (emit ev).
Proof. intros w. split; reflexivity. Qed.

Lemma keeps_go g : keeps_setup (go g).
Proof. intros w. split; reflexivity. Qed.

Lemma keeps_expConnectsTotal_Add d : keeps_setup (expConnectsTotal_Add d).
Proof. intros w. split; reflexivity. Qed.

Lemma keeps_chan_send e : keeps_setup (chan_send e).
Proof.
  intros w. unfold chan_send.
  destruct (closed (notify (srv w))); [apply same_setup_refl |].
  destruct (List.length (buf (notify (srv w))) <? cap (notify (srv w)))%nat;
    split; reflexivity.
Qed.

Lemma keeps_chan_close : keeps_setup chan_close.
Proof.
  intros w. unfold chan_close.
  destruct (closed (notify (srv w))); split; reflexivity.
Qed.

Lemma keeps_wg_Add d : keeps_setup (wg_Add d).
Proof.
  intros w. unfold wg_Add.
  destruct (counter (wg (srv w)) + d <? 0); split; reflexivity.
Qed.

Lemma keeps_wg_Wait : keeps_setup wg_Wait.
Proof.
  intros w. unfold wg_Wait.
  destruct (counter (wg (srv w)) =? 0); apply same_setup_refl.
Qed.

Lemma keeps_set_listener l :
  keeps_setup (fun w => Done tt (with_srv (set_listener l) w)).
Proof. intros w. split; reflexivity. Qed.

Create HintDb keeps.
#[local] Hint Resolve keeps_ret keeps_halt keeps_get_srv keeps_emit keeps_go
  keeps_expConnectsTotal_Add keeps_chan_send keeps_chan_close keeps_wg_Add
  keeps_wg_Wait keeps_set_listener : keeps.

(** Goes through a computation written with [bind], case by case. *)
Ltac keeps :=
  repeat first
    [ progress intros
    | apply keeps_bind
    | solve [auto with keeps]
    | match goal with
      | |- keeps_setup (match ?x with _ => _ end) => destruct x
      end ].

Lemma keeps_Start env : keeps_setup (Start env).
Proof.
  unfold Start, log_Msg, time_Sleep, await_ctx. keeps.
Qed.

Lemma keeps_serve_iter ev st : keeps_setup (serve_iter ev st).
Proof.
  unfold serve_iter, serve_body, log_Msg, time_Sleep. keeps.
Qed.

Lemma keeps_serve_loop evs st : keeps_setup (serve_loop evs st).
Proof.
  revert st. induction evs as [|ev evs IH]; intros st; simpl.
  - apply keeps_halt.
  - apply keeps_bind; [apply keeps_serve_iter |].
    intros [st'|]; [apply IH | apply keeps_ret].
Qed.

Lemma keeps_Drain : keeps_setup Drain.
Proof. apply keeps_wg_Wait. Qed.

Lemma keeps_Notify : keeps_setup Notify.
Proof. unfold Notify. keeps. Qed.

Lemma keeps_session_exit id : keeps_setup (session_exit id).
Proof. apply keeps_wg_Add. Qed.

Lemma run_op_same_setup op w : same_setup w (run_op op w).
Proof.
  destruct op; simpl.
  - apply keeps_Start.
  - apply keeps_serve_loop.
  - apply keeps_Drain.
  - apply keeps_Notify.
  - apply keeps_session_exit.
Qed.

Lemma run_ops_same_setup ops w : same_setup w (run_ops ops w).
Proof.
  revert w. induction ops as [|op ops IH]; intros w; simpl.
  - apply same_setup_refl.
  - eapply same_setup_trans; [apply run_op_same_setup | apply IH].
Qed.

(** C9: after [NewServer] has returned, no operation of the core ([Start],
    the accept loop, [Drain], [Notify], a session exiting) changes the
    stored configuration or the TLS context: in every state reached by any
    sequence of them, in any environment and however each one ends, both
    are what [NewServer] made them. *)
Theorem setup_fixed_after_construction :
  forall env cfg m p h ops,
    config (srv (run_ops ops (boot env cfg m p h)))
    = config (fst (NewServer env cfg m p h))
    /\ tlsConfig (srv (run_ops ops (boot env cfg m p h)))
       = tlsConfig (fst (NewServer env cfg m p h)).
Proof.
  intros env cfg m p h ops.
  destruct (run_ops_same_setup ops (boot env cfg m p h)) as [Hc Ht].
  rewrite Hc, Ht, boot_srv. split; reflexivity.
Qed.

Example setup_fixed_sample :
  config (srv (run_ops
    [OpStart (env_nocert [] true);
     OpServe [accept_ok 7%nat; accept_timeout; accept_broken];
     OpSessionExit 1; OpDrain; OpNotify; OpStart env_nohost]
    (boot (env_nocert [] true) cfg_forcetls 1%nat 2%nat 3%nat)))
  = mkSMTP "0.0.0.0:2500" false "key.pem" "cert.pem" true.
Proof. reflexivity. Qed.

(** * Further properties of the listener *)

(** ** A successful startup, and shutdown *)

Lemma listener_closes_app tr1 tr2 :
  listener_closes (tr1 ++ tr2)
  = (listener_closes tr1 + listener_closes tr2)%nat.
Proof. unfold listener_closes. rewrite filter_app. apply length_app. Qed.

Lemma startup_resolves env s :
  startup_failure env s = None ->
  exists addr, ResolveTCPAddr env "tcp4" (Addr (config s)) = inl addr.
Proof.
  unfold startup_failure.
  destruct (ResolveTCPAddr env "tcp4" (Addr (config s)));
    [eauto | discriminate].
Qed.

(** What [Start] comes to when nothing fails at startup. *)
Lemma Start_succeeds env w addr :
  ResolveTCPAddr env "tcp4" (Addr (config (srv w))) = inl addr ->
  startup_failure env (srv w) = None ->
  Start env w =
  if cancelled env then
    Done tt
      (mkWorld (srv (started w addr)) (expConnectsTotal w)
         (goroutines w ++ [GServe])
         (trace (started w addr) ++
          [ELog (shutdown_logger DebugLevel None
                   "SMTP shutdown requested, connections will be drained");
           EListenerClose] ++
          match listener_Close env with
          | Some err =>
              [ELog (shutdown_logger ErrorLevel (Some err)
                       "Failed to close SMTP listener")]
          | None => []
          end))
  else Halted (Parked OnCtxDone) (started w addr).
Proof.
  intros Hres Hok.
  unfold startup_failure in Hok. rewrite Hres in Hok.
  unfold Start, started, bound_listener.
  unfold bind at 1. unfold get_srv at 1. rewrite Hres.
  set (r := if ForceTLS (config (srv w)) then _ else _).
  assert (Hr : r = (Some (if ForceTLS (config (srv w))
                          then TLSListener (addrString addr)
                                           (tlsConfig (srv w))
                          else TCPListener addr), None)).
  { subst r. destruct (ForceTLS (config (srv w))); rewrite Hok;
      reflexivity. }
  rewrite Hr. unfold_m.
  destruct (cancelled env); [destruct (listener_Close env) |]; cbn;
    unfold with_trace; cbn; rewrite <- ?app_assoc; reflexivity.
Qed.

(** X1: when the address resolves and the socket binds, [Start] stores the
    listener the configuration asks for, launches [serve] exactly once,
    calls the ready callback exactly once, and leaves the notifier, the
    session tracker and the accepted-connections counter as they were:
    nothing is sent. *)
Theorem Start_success_effects :
  forall env w,
    startup_failure env (srv w) = None ->
    exists addr,
      ResolveTCPAddr env "tcp4" (Addr (config (srv w))) = inl addr
      /\ listener (srv (world_of (Start env w)))
         = Some (bound_listener (srv w) addr)
      /\ goroutines (world_of (Start env w)) = goroutines w ++ [GServe]
      /\ ready_calls (trace (world_of (Start env w)))
         = S (ready_calls (trace w))
      /\ sends (trace (world_of (Start env w))) = sends (trace w)
      /\ notify (srv (world_of (Start env w))) = notify (srv w)
      /\ wg (srv (world_of (Start env w))) = wg (srv w)
      /\ expConnectsTotal (world_of (Start env w)) = expConnectsTotal w.
Proof.
  intros env w Hok.
  destruct (startup_resolves env (srv w) Hok) as (addr & Hres).
  exists addr. split; [exact Hres |].
  rewrite (Start_succeeds env w addr Hres Hok).
  destruct (cancelled env); [destruct (listener_Close env) |];
    cbn [world_of srv trace goroutines expConnectsTotal started
         set_listener listener notify wg];
    rewrite ?ready_calls_app, ?sends_app; cbn; rewrite ?app_nil_r;
    repeat split; lia.
Qed.

Lemma Start_success_effects_witness :
  startup_failure (env_nocert [] true) (srv world0) = None
  /\ exists addr,
       listener (srv (world_of (Start (env_nocert [] true) world0)))
       = Some (TCPListener addr)
       /\ goroutines (world_of (Start (env_nocert [] true) world0)) = [GServe]
       /\ ready_calls (trace (world_of (Start (env_nocert [] true) world0)))
          = 1%nat.
Proof.
  split; [reflexivity |].
  destruct (Start_success_effects (env_nocert [] true) world0 eq_refl)
    as (addr & _ & Hl & Hg & Hr & _).
  exists addr. split; [exact Hl |]. split; [exact Hg | exact Hr].
Defined.

(** X2: after a successful startup [Start] returns exactly when the context
    is cancelled.  Cancelled: it closes the listener exactly once and
    returns, and a failure of that close adds one error-level log entry and
    nothing else (nothing is sent on the notifier, which stays as it was).
    Not cancelled: it is parked on [ctx.Done()] and the listener is not
    closed. *)
Theorem Start_shutdown :
  forall env w,
    startup_failure env (srv w) = None ->
    returns (Start env w) = cancelled env
    /\ (cancelled env = false ->
        exists w', Start env w = Halted (Parked OnCtxDone) w')
    /\ listener_closes (trace (world_of (Start env w)))
       = (listener_closes (trace w) + if cancelled env then 1 else 0)%nat
    /\ (forall err,
          cancelled env = true ->
          listener_Close env = Some err ->
          exists tr,
            trace (world_of (Start env w))
            = tr ++ [EListenerClose;
                     ELog (shutdown_logger ErrorLevel (Some err)
                             "Failed to close SMTP listener")]
            /\ sends (trace (world_of (Start env w))) = sends (trace w)
            /\ notify (srv (world_of (Start env w))) = notify (srv w)).
Proof.
  intros env w Hok.
  destruct (startup_resolves env (srv w) Hok) as (addr & Hres).
  rewrite (Start_succeeds env w addr Hres Hok).
  destruct (cancelled env) eqn:Hc.
  - cbn [returns world_of trace srv started].
    split; [reflexivity |]. split; [discriminate |]. split.
    + rewrite !listener_closes_app. cbn [app].
      destruct (listener_Close env); cbn; lia.
    + intros err _ Herr. rewrite Herr.
      exists (trace (started w addr) ++
              [ELog (shutdown_logger DebugLevel None
                       "SMTP shutdown requested, connections will be drained")]).
      split.
      * cbn [started trace]. rewrite <- !app_assoc. reflexivity.
      * rewrite !sends_app. cbn. rewrite !app_nil_r. auto.
  - cbn [returns world_of trace started].
    split; [reflexivity |]. split; [eauto |]. split.
    + rewrite listener_closes_app. cbn. lia.
    + discriminate.
Qed.

Lemma Start_shutdown_witness :
  startup_failure (env_nocert [] true) (srv world0) = None
  /\ returns (Start (env_nocert [] true) world0) = true
  /\ returns (Start (env_nocert [] false) world0) = false
  /\ listener_closes (trace (world_of (Start (env_nocert [] true) world0)))
     = 1%nat.
Proof.
  split; [reflexivity |].
  destruct (Start_shutdown (env_nocert [] true) world0 eq_refl)
    as (Hret & _ & Hclose & _).
  destruct (Start_shutdown (env_nocert [] false) world0 eq_refl)
    as (Hpark & _).
  split; [exact Hret |]. split; [exact Hpark | exact Hclose].
Defined.

(** ** When the accept loop ends *)

Lemma serve_loop_returns evs st w :
  notify (srv w) = make_chan 1 ->
  0 <= counter (wg (srv w)) ->
  returns (serve_loop evs st w) = existsb is_permanent evs
  /\ (existsb is_permanent evs = false ->
      exists w', serve_loop evs st w = Halted (Parked OnAccept) w').
Proof.
  revert st w. induction evs as [|ev evs IH]; intros st w Hn Hwg.
  - simpl. split; [reflexivity | eauto].
  - cbn [serve_loop existsb]. unfold bind, is_permanent at 1 3.
    destruct (accepted ev) as [c|e] eqn:Hacc.
    + rewrite (serve_iter_accepts ev c st w Hacc Hwg). cbn [orb].
      apply IH; cbn [srv notify wg set_wg counter]; [exact Hn | lia].
    + destruct (is_timeout e) eqn:Ht; cbn [negb orb].
      * rewrite (serve_iter_times_out ev e st w Hacc Ht).
        apply IH; assumption.
      * destruct (ctxDone ev) eqn:Hctx.
        -- rewrite (serve_iter_shutdown ev e st w Hacc Ht Hctx).
           split; [reflexivity | discriminate].
        -- rewrite (serve_iter_fatal ev e st w Hacc Ht Hctx Hn).
           split; [reflexivity | discriminate].
Qed.

(** X3: with the notifier as [NewServer] made it and a tracker that is not
    negative, [serve] returns exactly when [Accept] has failed permanently;
    as long as it has not, [serve] is waiting in [Accept].  It never panics
    and never blocks on the notifier, read or not. *)
Theorem serve_returns_on_permanent_failure :
  forall evs w,
    notify (srv w) = make_chan 1 ->
    0 <= counter (wg (srv w)) ->
    returns (serve evs w) = existsb is_permanent evs
    /\ (existsb is_permanent evs = false ->
        exists w', serve evs w = Halted (Parked OnAccept) w').
Proof.
  intros evs w Hn Hwg. apply serve_loop_returns; assumption.
Qed.

Lemma serve_returns_on_permanent_failure_witness :
  notify (srv world0) = make_chan 1
  /\ 0 <= counter (wg (srv world0))
  /\ returns (serve [accept_ok 7%nat; accept_timeout; accept_broken] world0)
     = true
  /\ returns (serve [accept_ok 7%nat; accept_timeout] world0) = false.
Proof.
  split; [reflexivity |]. split; [simpl; lia |].
  split.
  - apply (serve_returns_on_permanent_failure
             [accept_ok 7%nat; accept_timeout; accept_broken] world0);
      [reflexivity | simpl; lia].
  - apply (serve_returns_on_permanent_failure
             [accept_ok 7%nat; accept_timeout] world0);
      [reflexivity | simpl; lia].
Defined.

Lemma serve_iter_permanent_ends ev st w :
  is_permanent ev = true ->
  forall st', value_of (serve_iter ev st w) <> Some (Some st').
Proof.
  unfold is_permanent. intros Hperm st' Hval.
  destruct (accepted ev) as [c|e] eqn:Hacc; [discriminate |].
  apply negb_true_iff in Hperm.
  rewrite (serve_iter_permanent ev e st w Hacc Hperm) in Hval.
  - discriminate.
  - rewrite Hval. discriminate.
Qed.

(** X4: [serve] stops at the first permanent accept failure: whatever
    [Accept] would give afterwards changes nothing, so no session is
    launched, nothing is slept and nothing is counted after it. *)
Theorem serve_stops_at_permanent_failure :
  forall pre ev rest w,
    is_permanent ev = true ->
    serve (pre ++ ev :: rest) w = serve (pre ++ [ev]) w.
Proof.
  intros pre ev rest w Hperm. unfold serve.
  rewrite !serve_loop_app.
  destruct (iterate pre (mkLoop 0 1) w) as [[st1|] w1|h w1];
    try reflexivity.
  cbn [serve_loop]. unfold bind.
  pose proof (serve_iter_permanent_ends ev st1 w1 Hperm) as Hends.
  destruct (serve_iter ev st1 w1) as [[st2|] w2|h w2]; try reflexivity.
  exfalso. apply (Hends st2). reflexivity.
Qed.

Lemma serve_stops_at_permanent_failure_witness :
  is_permanent accept_closed = true
  /\ serve ([accept_ok 7%nat] ++ accept_closed :: [accept_ok 8%nat]) world0
     = serve ([accept_ok 7%nat] ++ [accept_closed]) world0
  /\ session_ids (goroutines (world_of
       (serve ([accept_ok 7%nat] ++ accept_closed :: [accept_ok 8%nat])
              world0)))
     = [1].
Proof.
  split; [reflexivity |].
  pose proof (serve_stops_at_permanent_failure [accept_ok 7%nat]
                accept_closed [accept_ok 8%nat] world0 eq_refl) as Hstop.
  split; [exact Hstop |]. rewrite Hstop. reflexivity.
Defined.

(** ** What the loop sleeps and what it logs *)

Lemma logged_app tr1 tr2 : logged (tr1 ++ tr2) = logged tr1 ++ logged tr2.
Proof. apply flat_map_app. Qed.

Lemma logged_delays_app tr1 tr2 :
  logged_delays (tr1 ++ tr2) = logged_delays tr1 ++ logged_delays tr2.
Proof.
  unfold logged_delays. rewrite logged_app, !flat_map_app. reflexivity.
Qed.

Lemma next_delay_in_range d :
  d = 0 \/ in_backoff_range d -> in_backoff_range (next_delay d).
Proof.
  unfold in_backoff_range. intros [-> | Hd].
  - rewrite next_delay_zero.
    unfold time.Second, time.Millisecond, time.Microsecond, time.Nanosecond.
    lia.
  - assert (0 < d).
    { unfold time.Millisecond, time.Microsecond, time.Nanosecond in Hd. lia. }
    rewrite next_delay_doubles by lia. lia.
Qed.

Lemma serve_iter_accept_trace ev c st w :
  accepted ev = inl c ->
  trace (world_of (serve_iter ev st w)) = trace w
  /\ forall st', value_of (serve_iter ev st w) = Some (Some st') ->
                 tempDelay st' = 0.
Proof.
  intros Hacc. unfold serve_iter, serve_body. rewrite Hacc. unfold_m. cbn.
  destruct (counter (wg (srv w)) + 1 <? 0); cbn.
  - split; [reflexivity | discriminate].
  - split; [reflexivity |]. intros st' Heq. injection Heq as <-.
    reflexivity.
Qed.

Lemma serve_iter_permanent_trace ev e st w :
  accepted ev = inr e ->
  is_timeout e = false ->
  exists tr,
    trace (world_of (serve_iter ev st w)) = trace w ++ tr
    /\ sleeps tr = [] /\ logged tr = [].
Proof.
  intros Hacc Ht. unfold serve_iter, serve_body. rewrite Hacc, Ht.
  destruct (ctxDone ev).
  - exists []. simpl. rewrite app_nil_r. auto.
  - unfold_m.
    destruct (closed (notify (srv w))); simpl.
    + exists []. rewrite app_nil_r. auto.
    + destruct (List.length (buf (notify (srv w)))
                <? cap (notify (srv w)))%nat; simpl.
      * exists [ESend e; EClose]. rewrite <- app_assoc. auto.
      * exists []. rewrite app_nil_r. auto.
Qed.

Lemma serve_loop_delays evs st w :
  tempDelay st = 0 \/ in_backoff_range (tempDelay st) ->
  exists ds,
    sleeps (trace (world_of (serve_loop evs st w))) = sleeps (trace w) ++ ds
    /\ logged_delays (trace (world_of (serve_loop evs st w)))
       = logged_delays (trace w) ++ ds
    /\ Forall in_backoff_range ds.
Proof.
  revert st w. induction evs as [|ev evs IH]; intros st w Hd.
  - exists []. cbn. rewrite !app_nil_r. auto.
  - cbn [serve_loop]. unfold bind.
    destruct (accepted ev) as [c|e] eqn:Hacc.
    + destruct (serve_iter_accept_trace ev c st w Hacc) as (Htr & Hzero).
      destruct (serve_iter ev st w) as [[st'|] w'|h w']; cbn in Htr.
      * destruct (IH st' w') as (ds & Hs & Hl & Hall).
        { left. apply Hzero. reflexivity. }
        exists ds. rewrite Hs, Hl, Htr. auto.
      * exists []. cbn. rewrite Htr, !app_nil_r. auto.
      * exists []. cbn. rewrite Htr, !app_nil_r. auto.
    + destruct (is_timeout e) eqn:Ht.
      * rewrite (serve_iter_times_out ev e st w Hacc Ht).
        pose proof (next_delay_in_range (tempDelay st) Hd) as Hnext.
        match goal with
        | |- context [serve_loop evs ?st1 ?w1] =>
            destruct (IH st1 w1) as (ds & Hs & Hl & Hall)
        end.
        { right. exact Hnext. }
        exists (next_delay (tempDelay st) :: ds).
        rewrite Hs, Hl. cbn [trace].
        rewrite sleeps_app, logged_delays_app. cbn.
        rewrite <- !app_assoc. cbn. auto.
      * destruct (serve_iter_permanent_trace ev e st w Hacc Ht)
          as (tr & Htr & Hs & Hl).
        assert (Hperm : is_permanent ev = true).
        { unfold is_permanent. rewrite Hacc, Ht. reflexivity. }
        pose proof (serve_iter_permanent_ends ev st w Hperm) as Hends.
        assert (Hsame : sleeps (trace (world_of (serve_iter ev st w)))
                        = sleeps (trace w)
                        /\ logged_delays (trace (world_of (serve_iter ev st w)))
                           = logged_delays (trace w)).
        { rewrite Htr, sleeps_app, logged_delays_app, Hs.
          unfold logged_delays at 2. rewrite Hl. cbn.
          rewrite !app_nil_r. auto. }
        destruct Hsame as (Hsl & Hlg).
        destruct (serve_iter ev st w) as [[st'|] w'|h w'];
          cbn [world_of] in *.
        -- exfalso. apply (Hends st'). reflexivity.
        -- exists []. unfold ret. cbn [world_of].
           rewrite Hsl, Hlg, !app_nil_r. auto.
        -- exists []. rewrite Hsl, Hlg, !app_nil_r. auto.
Qed.

(** X5: every delay [serve] sleeps is at least 5ms and at most 1s, however
    long the accepts keep timing out and whatever else happens in the run:
    the doubling never overflows and never exceeds the cap. *)
Theorem serve_sleeps_within_bounds :
  forall evs w,
    exists ds,
      sleeps (trace (world_of (serve evs w))) = sleeps (trace w) ++ ds
      /\ Forall in_backoff_range ds.
Proof.
  intros evs w.
  destruct (serve_loop_delays evs (mkLoop 0 1) w) as (ds & Hs & _ & Hall).
  - left. reflexivity.
  - exists ds. split; [exact Hs | exact Hall].
Qed.

(** X6: [serve] announces every sleep: the delays carried by the entries it
    logs are, in order, exactly the delays it sleeps. *)
Theorem serve_logs_what_it_sleeps :
  forall evs w,
    exists ds,
      sleeps (trace (world_of (serve evs w))) = sleeps (trace w) ++ ds
      /\ logged_delays (trace (world_of (serve evs w)))
         = logged_delays (trace w) ++ ds.
Proof.
  intros evs w.
  destruct (serve_loop_delays evs (mkLoop 0 1) w) as (ds & Hs & Hl & _).
  - left. reflexivity.
  - exists ds. split; [exact Hs | exact Hl].
Qed.

Example serve_sleeps_logged_sample :
  logged_delays (trace (world_of
    (serve [accept_timeout; accept_timeout; accept_ok 8%nat; accept_timeout;
            accept_broken] world0)))
  = [5000000; 10000000; 5000000].
Proof. reflexivity. Qed.

(** ** Connections, sessions and counters *)

Lemma session_conns_app gs1 gs2 :
  session_conns (gs1 ++ gs2) = session_conns gs1 ++ session_conns gs2.
Proof. apply flat_map_app. Qed.

Lemma wrap_add_l a b : GoInt.wrap (GoInt.wrap a + b) = GoInt.wrap (a + b).
Proof.
  unfold GoInt.wrap.
  replace ((a + 2 ^ 63) mod 2 ^ 64 - 2 ^ 63 + b + 2 ^ 63)
    with ((a + 2 ^ 63) mod 2 ^ 64 + b) by lia.
  rewrite Z.add_mod_idemp_l by lia.
  replace (a + 2 ^ 63 + b) with (a + b + 2 ^ 63) by lia. reflexivity.
Qed.

Lemma serve_loop_hands_over evs st w :
  0 <= counter (wg (srv w)) ->
  session_conns (goroutines (world_of (serve_loop evs st w)))
  = session_conns (goroutines w) ++ accepted_conns evs
  /\ counter (wg (srv (world_of (serve_loop evs st w))))
     = counter (wg (srv w)) + Z.of_nat (List.length (accepted_conns evs))
  /\ GoInt.wrap (expConnectsTotal (world_of (serve_loop evs st w)))
     = GoInt.wrap (expConnectsTotal w
                   + Z.of_nat (List.length (accepted_conns evs))).
Proof.
  revert st w. induction evs as [|ev evs IH]; intros st w Hwg.
  - cbn. rewrite app_nil_r, !Z.add_0_r. auto.
  - cbn [serve_loop accepted_conns]. unfold bind.
    destruct (accepted ev) as [c|e] eqn:Hacc.
    + rewrite (serve_iter_accepts ev c st w Hacc Hwg).
      match goal with
      | |- context [serve_loop evs ?st1 ?w1] =>
          destruct (IH st1 w1) as (Hconns & Hcount & Hexp)
      end.
      { cbn [srv wg set_wg counter]. lia. }
      rewrite Hconns, Hcount, Hexp.
      cbn [goroutines srv wg set_wg counter expConnectsTotal List.length].
      rewrite session_conns_app, <- app_assoc, Nat2Z.inj_succ.
      unfold GoInt.add. rewrite wrap_add_l.
      repeat split; [lia | f_equal; lia].
    + destruct (is_timeout e) eqn:Ht.
      * rewrite (serve_iter_times_out ev e st w Hacc Ht).
        match goal with
        | |- context [serve_loop evs ?st1 ?w1] =>
            destruct (IH st1 w1 Hwg) as (Hconns & Hcount & Hexp)
        end.
        rewrite Hconns, Hcount, Hexp. auto.
      * assert (Hperm : is_permanent ev = true).
        { unfold is_permanent. rewrite Hacc, Ht. reflexivity. }
        pose proof (serve_iter_permanent_ends ev st w Hperm) as Hends.
        pose proof (serve_iter_permanent_frame ev e st w Hacc Ht)
          as (Hgo & Hw & Hexp & _).
        rewrite app_nil_r. cbn [List.length]. rewrite !Z.add_0_r.
        rewrite <- Hgo, <- Hw, <- Hexp.
        destruct (serve_iter ev st w) as [[st'|] w'|h w'];
          [| unfold ret; cbn [world_of]; auto | cbn [world_of]; auto].
        exfalso. apply (Hends st'). reflexivity.
Qed.

(** X7: every connection [Accept] gives before the loop ends is handed to
    exactly one session handler, in the order accepted, none dropped and
    none twice; and the session tracker has gone up by one for each. *)
Theorem serve_hands_over_every_connection :
  forall evs w,
    0 <= counter (wg (srv w)) ->
    session_conns (goroutines (world_of (serve evs w)))
    = session_conns (goroutines w) ++ accepted_conns evs
    /\ counter (wg (srv (world_of (serve evs w))))
       = counter (wg (srv w)) + Z.of_nat (List.length (accepted_conns evs)).
Proof.
  intros evs w Hwg.
  destruct (serve_loop_hands_over evs (mkLoop 0 1) w Hwg)
    as (Hconns & Hcount & _).
  split; [exact Hconns | exact Hcount].
Qed.

Lemma serve_hands_over_every_connection_witness :
  0 <= counter (wg (srv world0))
  /\ session_conns (goroutines (world_of
       (serve [accept_ok 7%nat; accept_timeout; accept_ok 9%nat;
               accept_closed; accept_ok 4%nat] world0)))
     = [7%nat; 9%nat]
  /\ counter (wg (srv (world_of
       (serve [accept_ok 7%nat; accept_timeout; accept_ok 9%nat;
               accept_closed; accept_ok 4%nat] world0))))
     = 2.
Proof.
  split; [simpl; lia |].
  apply (serve_hands_over_every_connection
           [accept_ok 7%nat; accept_timeout; accept_ok 9%nat;
            accept_closed; accept_ok 4%nat] world0).
  simpl. lia.
Defined.

(** X8: the accepted-connections counter goes up by exactly the number of
    connections accepted, in 64-bit wrap-around arithmetic; and by that
    number plainly when the sum stays within [int64]. *)
Theorem serve_counts_connections :
  forall evs w,
    0 <= counter (wg (srv w)) ->
    GoInt.min_int <= expConnectsTotal w <= GoInt.max_int ->
    (accepted_conns evs <> [] ->
     expConnectsTotal (world_of (serve evs w))
     = GoInt.wrap (expConnectsTotal w
                   + Z.of_nat (List.length (accepted_conns evs))))
    /\ (expConnectsTotal w + Z.of_nat (List.length (accepted_conns evs))
        <= GoInt.max_int ->
        expConnectsTotal (world_of (serve evs w))
        = expConnectsTotal w + Z.of_nat (List.length (accepted_conns evs))).
Proof.
  intros evs w Hwg Hrange.
  assert (Hint : GoInt.wrap (expConnectsTotal (world_of (serve evs w)))
                 = expConnectsTotal (world_of (serve evs w))).
  { unfold serve. generalize (mkLoop 0 1). revert w Hwg Hrange.
    induction evs as [|ev evs IH]; intros w Hwg Hrange st.
    - cbn. apply wrap_small. exact Hrange.
    - cbn [serve_loop]. unfold bind.
      destruct (accepted ev) as [c|e] eqn:Hacc.
      + rewrite (serve_iter_accepts ev c st w Hacc Hwg).
        apply IH; cbn [srv wg set_wg counter expConnectsTotal]; [lia |].
        unfold GoInt.add, GoInt.wrap, GoInt.min_int, GoInt.max_int.
        pose proof (Z.mod_pos_bound (expConnectsTotal w + 1 + 2 ^ 63)
                      (2 ^ 64) eq_refl). lia.
      + destruct (is_timeout e) eqn:Ht.
        * rewrite (serve_iter_times_out ev e st w Hacc Ht).
          match goal with
          | |- context [serve_loop evs ?st1 ?w1] =>
              exact (IH w1 Hwg Hrange st1)
          end.
        * pose proof (serve_iter_permanent_frame ev e st w Hacc Ht)
            as (_ & _ & Hexp & _).
          assert (Hperm : is_permanent ev = true).
          { unfold is_permanent. rewrite Hacc, Ht. reflexivity. }
          pose proof (serve_iter_permanent_ends ev st w Hperm) as Hends.
          destruct (serve_iter ev st w) as [[st'|] w'|h w'];
            cbn [world_of] in *.
          -- exfalso. apply (Hends st'). reflexivity.
          -- unfold ret. cbn [world_of]. rewrite Hexp.
             apply wrap_small. exact Hrange.
          -- rewrite Hexp. apply wrap_small. exact Hrange. }
  destruct (serve_loop_hands_over evs (mkLoop 0 1) w Hwg) as (_ & _ & Hexp).
  fold (serve evs) in Hexp. rewrite Hint in Hexp.
  split.
  - intros _. exact Hexp.
  - intros Hfit. rewrite Hexp. apply wrap_small. lia.
Qed.

Lemma serve_counts_connections_witness :
  0 <= counter (wg (srv world0))
  /\ GoInt.min_int <= expConnectsTotal world0 <= GoInt.max_int
  /\ expConnectsTotal (world_of
       (serve [accept_ok 7%nat; accept_timeout; accept_ok 9%nat] world0))
     = 2.
Proof.
  split; [simpl; lia |]. split; [cbv; split; discriminate |].
  apply (serve_counts_connections
           [accept_ok 7%nat; accept_timeout; accept_ok 9%nat] world0).
  - simpl. lia.
  - cbv. split; discriminate.
  - cbv. discriminate.
Defined.

(** ** Construction, whatever the key pair *)

(** X9: [NewServer] stores the configuration it is given, but for the
    TLS-enabled flag, which stays set only when the key pair loaded without
    error: a server that offers STARTTLS holds exactly one certificate, the
    one loaded, and has logged one debug entry.  The address, the paths and
    the force-TLS flag are never changed, and the collaborators are stored
    as passed. *)
Theorem NewServer_offers_tls_only_with_certificate :
  forall env cfg m p h,
    Addr (config (fst (NewServer env cfg m p h))) = Addr cfg
    /\ TLSCert (config (fst (NewServer env cfg m p h))) = TLSCert cfg
    /\ TLSPrivKey (config (fst (NewServer env cfg m p h))) = TLSPrivKey cfg
    /\ ForceTLS (config (fst (NewServer env cfg m p h))) = ForceTLS cfg
    /\ TLSEnabled (config (fst (NewServer env cfg m p h)))
       = match snd (LoadX509KeyPair env (TLSCert cfg) (TLSPrivKey cfg)) with
         | None => TLSEnabled cfg
         | Some _ => false
         end
    /\ (TLSEnabled (config (fst (NewServer env cfg m p h))) = true ->
        Certificates (tlsConfig (fst (NewServer env cfg m p h)))
        = [fst (LoadX509KeyPair env (TLSCert cfg) (TLSPrivKey cfg))]
        /\ snd (NewServer env cfg m p h)
           = [tls_logger DebugLevel None "STARTTLS feature available" []])
    /\ manager (fst (NewServer env cfg m p h)) = m
    /\ addrPolicy (fst (NewServer env cfg m p h)) = p
    /\ extHost (fst (NewServer env cfg m p h)) = h.
Proof.
  intros env cfg m p h. unfold NewServer.
  destruct (TLSEnabled cfg) eqn:Hon.
  - destruct (LoadX509KeyPair env (TLSCert cfg) (TLSPrivKey cfg))
      as [cert [e|]]; cbn; rewrite ?Hon; repeat split; try discriminate.
  - destruct (LoadX509KeyPair env (TLSCert cfg) (TLSPrivKey cfg))
      as [cert [e|]]; cbn; rewrite ?Hon; repeat split; discriminate.
Qed.

(** * Properties of the client's options *)

Lemma last_cons_default {A : Type} (l : list A) (a d d' : A) :
  last (a :: l) d = last (a :: l) d'.
Proof.
  revert a. induction l as [|b l IH]; intros a.
  - reflexivity.
  - change (last (b :: l) d = last (b :: l) d'). apply IH.
Qed.

Lemma apply_all_transports ts opts :
  client.apply_all (map client.WithOptTransport ts) opts
  = client.mkOptions (last ts (client.transport opts)) (client.timeout opts).
Proof.
  revert opts. induction ts as [|t ts IH]; intros opts.
  - destruct opts; reflexivity.
  - unfold client.apply_all in *. cbn [map fold_left].
    rewrite IH. cbn [client.apply client.WithOptTransport client.transport
                     client.timeout].
    destruct ts as [|r ts]; [reflexivity |].
    f_equal. change (last (t :: r :: ts) (client.transport opts))
      with (last (r :: ts) (client.transport opts)).
    apply last_cons_default.
Qed.

(** X10: applying transport options one after the other never touches the
    timeout, and the transport that stands is the one of the last option
    applied (a nil transport included); with no option the options are as
    they were.  From the defaults the timeout is still 30s and, with no
    option, the transport is nil. *)
Theorem WithOptTransport_last_wins :
  forall ts opts,
    client.timeout (client.apply_all (map client.WithOptTransport ts) opts)
    = client.timeout opts
    /\ client.transport
         (client.apply_all (map client.WithOptTransport ts) opts)
       = last ts (client.transport opts)
    /\ client.apply_all (map client.WithOptTransport ts)
                        client.getDefaultOptions
       = client.mkOptions (last ts None) (30 * time.Second).
Proof.
  intros ts opts. rewrite !apply_all_transports. repeat split.
Qed.

Example client_options_sample :
  client.apply_all
    [client.WithOptTransport (Some 4%nat); client.WithOptTransport None]
    client.getDefaultOptions
  = client.mkOptions None (30 * time.Second).
Proof. reflexivity. Qed.
